(** * Fog rasterizer core: spans, mask encoding, dispatch table, pattern contexts

    A shallow embedding of [Fog/G2d/Rasterizer/Span_p.h] (the [Span],
    [Span8] and [Span16] structures) and of the parts of
    [Fog/Graphics/RasterUtil.h] that describe the compositing dispatch table
    and the reference-counted pattern context, followed by the properties
    proved about them.

    Conventions:
    - a C++ integer is a [Z]; every conversion the source performs is written
      out ([to_uint32], [to_int], [to_bitfield], [to_sysuint]);
    - [FOG_ASSERT] is modelled with its debug-build meaning: a failing
      assertion stops the call ([AssertFail]);
    - a mutator returns the updated structure, an accessor its value. *)

From Stdlib Require Import ZArith Bool Lia List.
From stdpp Require Import base option list gmap.
Import ListNotations.

Local Open Scope Z_scope.

(** ** Machine integers *)

(** Value of [z] converted to an unsigned integer type of [bits] bits. *)
Definition wrap_unsigned (bits z : Z) : Z := z mod 2 ^ bits.

(** Value of [z] converted to a two's complement integer type of [bits] bits. *)
Definition wrap_signed (bits z : Z) : Z :=
  (z + 2 ^ (bits - 1)) mod 2 ^ bits - 2 ^ (bits - 1).

Definition INT_MAX : Z := 2 ^ 31 - 1.
Definition INT_MIN : Z := - 2 ^ 31.
Definition UINT32_MAX : Z := 2 ^ 32 - 1.

(** [int], [uint] and [uint32_t] are 32 bits wide on every platform Fog
    supports. *)
Definition to_int (z : Z) : Z := wrap_signed 32 z.
Definition to_uint (z : Z) : Z := wrap_unsigned 32 z.
Definition to_uint32 (z : Z) : Z := wrap_unsigned 32 z.

(** Store into an unsigned bit-field of [bits] bits. *)
Definition to_bitfield (bits z : Z) : Z := wrap_unsigned bits z.

(** The C++ product of two [int]s (wrapping on overflow). *)
Definition int_mul (a b : Z) : Z := to_int (a * b).

Definition is_int (z : Z) : Prop := INT_MIN <= z <= INT_MAX.
Definition is_uint32 (z : Z) : Prop := 0 <= z <= UINT32_MAX.

(** [sysuint_t] is the unsigned integer as wide as a pointer; its width
    depends on the target (32 or 64 bits). *)
Class Platform := { sysuint_bits : Z }.

Definition ILP32 : Platform := {| sysuint_bits := 32 |}.
Definition LP64 : Platform := {| sysuint_bits := 64 |}.

Definition to_sysuint `{Platform} (z : Z) : Z := wrap_unsigned sysuint_bits z.

Definition is_sysuint `{Platform} (z : Z) : Prop := 0 <= z < 2 ^ sysuint_bits.

(** ** Debug assertions *)

Inductive Checked (A : Type) : Type :=
| Pass (a : A)
| AssertFail.

Arguments Pass {A} a.
Arguments AssertFail {A}.

Definition FOG_ASSERT (cond : bool) : Checked unit :=
  if cond then Pass tt else AssertFail.

Definition and_then {A B : Type} (c : Checked A) (k : A -> Checked B) : Checked B :=
  match c with
  | Pass a => k a
  | AssertFail => AssertFail
  end.

Notation "c1 ;;; c2" := (and_then c1 (fun _ => c2))
  (at level 100, c2 at level 200, right associativity).

Definition passes {A : Type} (c : Checked A) : bool :=
  match c with
  | Pass _ => true
  | AssertFail => false
  end.

(** ** The SPAN enumeration *)

(** Modelled from the spec: the [SPAN] enumeration lives in
    [Fog/G2d/Global/Constants.h], which is not among the sources.  The
    values of the six kinds are the indices written next to the entries of
    the [advanceData] tables of [Span_p.h]; the spec lists one Constant kind
    followed by five Variant kinds, so the variant kinds begin at the first
    glyph kind and [SPAN_COUNT] is six. *)
Definition SPAN_C : Z := 0.
Definition SPAN_A8_GLYPH : Z := 1.
Definition SPAN_AX_GLYPH : Z := 2.
Definition SPAN_AX_EXTRA : Z := 3.
Definition SPAN_ARGB32_GLYPH : Z := 4.
Definition SPAN_ARGBXX_GLYPH : Z := 5.
Definition SPAN_COUNT : Z := 6.
Definition SPAN_V_BEGIN : Z := 1.

(** ** Fog::Span *)

(** The members of [Span].  [_mask] and [_mask_uint] are the two views of
    one union, so the record keeps the integer view; the pointer view is
    [NULL] exactly when the integer is zero.  [_next] is the address of the
    next span. *)
Record Span : Type := mkSpan {
  _x0 : Z;          (* uint32_t _x0 : 29 *)
  _type : Z;        (* uint32_t _type : 3 *)
  _x1 : Z;          (* uint32_t _x1 *)
  _mask_uint : Z;   (* union { void* _mask; sysuint_t _mask_uint; } *)
  _next : Z         (* Span* _next *)
}.

Definition NULL : Z := 0.

Definition with_x0 (v : Z) (s : Span) : Span :=
  mkSpan v (_type s) (_x1 s) (_mask_uint s) (_next s).
Definition with_type (v : Z) (s : Span) : Span :=
  mkSpan (_x0 s) v (_x1 s) (_mask_uint s) (_next s).
Definition with_x1 (v : Z) (s : Span) : Span :=
  mkSpan (_x0 s) (_type s) v (_mask_uint s) (_next s).
Definition with_mask (v : Z) (s : Span) : Span :=
  mkSpan (_x0 s) (_type s) (_x1 s) v (_next s).
Definition with_next (v : Z) (s : Span) : Span :=
  mkSpan (_x0 s) (_type s) (_x1 s) (_mask_uint s) v.

(** The values the member types can hold. *)
Definition Span_wf `{Platform} (s : Span) : Prop :=
  0 <= _x0 s < 2 ^ 29 /\
  0 <= _type s < 2 ^ 3 /\
  is_uint32 (_x1 s) /\
  is_sysuint (_mask_uint s).

(** *** Consistency *)

Definition isValid (s : Span) : bool :=
  (_x0 s <? _x1 s) && negb (_mask_uint s =? NULL).

(** *** Position / Type *)

Definition getType (s : Span) : Z := _type s.

Definition getX0 (s : Span) : Z := to_int (_x0 s).
Definition getX1 (s : Span) : Z := to_int (_x1 s).

(** [_x0] is promoted to [int] and then converted to [uint32_t] by the
    subtraction, which is carried out modulo [2^32]. *)
Definition getLength (s : Span) : Z := to_int (to_uint32 (_x1 s - _x0 s)).

Definition setType (type : Z) (s : Span) : Checked Span :=
  FOG_ASSERT (type <? SPAN_COUNT) ;;;
  Pass (with_type (to_bitfield 3 type) s).

Definition setX0 (x0 : Z) (s : Span) : Checked Span :=
  FOG_ASSERT (0 <=? x0) ;;;
  Pass (with_x0 (to_bitfield 29 (to_uint32 (to_uint x0))) s).

Definition setX1 (x1 : Z) (s : Span) : Checked Span :=
  FOG_ASSERT (0 <=? x1) ;;;
  Pass (with_x1 (to_uint32 (to_uint x1)) s).

Definition setPosition (x0 x1 : Z) (s : Span) : Checked Span :=
  FOG_ASSERT (0 <=? x0) ;;;
  FOG_ASSERT (0 <=? x1) ;;;
  FOG_ASSERT (x0 <? x1) ;;;
  Pass (with_x1 (to_uint32 x1) (with_x0 (to_bitfield 29 x0) s)).

Definition setPositionAndType (x0 x1 type : Z) (s : Span) : Checked Span :=
  FOG_ASSERT (0 <=? x0) ;;;
  FOG_ASSERT (0 <=? x1) ;;;
  FOG_ASSERT (x0 <? x1) ;;;
  Pass (with_type (to_bitfield 3 type)
         (with_x1 (to_uint32 (to_uint x1))
           (with_x0 (to_bitfield 29 (to_uint32 (to_uint x0))) s))).

(** *** Common interface *)

Definition isConst (s : Span) : bool := _type s <? SPAN_V_BEGIN.
Definition isVariant (s : Span) : bool := SPAN_V_BEGIN <=? _type s.

Definition isA8Glyph (s : Span) : bool := _type s =? SPAN_A8_GLYPH.
Definition isAXGlyph (s : Span) : bool := _type s =? SPAN_AX_GLYPH.
Definition isAXExtra (s : Span) : bool := _type s =? SPAN_AX_EXTRA.
Definition isArgb32Glyph (s : Span) : bool := _type s =? SPAN_ARGB32_GLYPH.
Definition isArgbXXGlyph (s : Span) : bool := _type s =? SPAN_ARGBXX_GLYPH.

(** *** Generic-mask interface *)

Definition getGenericMask (s : Span) : Z := _mask_uint s.
Definition setGenericMask (mask : Z) (s : Span) : Span := with_mask mask s.

(** *** Variant-mask interface *)

Definition getVariantMask (s : Span) : Checked Z :=
  FOG_ASSERT (isVariant s) ;;;
  Pass (_mask_uint s).

Definition setVariantMask (mask : Z) (s : Span) : Checked Span :=
  FOG_ASSERT (isVariant s) ;;;
  Pass (with_mask mask s).

(** *** Next *)

Definition getNext (s : Span) : Z := _next s.
Definition setNext (next : Z) (s : Span) : Span := with_next next s.

(** *** Sample spans *)

(** A valid span covering [0, 3). *)
Definition span_0_3 : Span := mkSpan 0 SPAN_C 3 0x100 NULL.

(** A span that [isValid] accepts and whose length is not positive: a
    constant, fully opaque span from 0 to [2^31]. *)
Definition span_to_2_pow_31 : Span := mkSpan 0 SPAN_C (2 ^ 31) 0x100 NULL.

(** ** Fog::Span8 *)

(** [Span8] derives from [Span] and adds no member. *)
Module Span8.

(** *** Const-mask interface *)

Definition getConstMask (s : Span) : Checked Z :=
  FOG_ASSERT (isConst s) ;;;
  Pass (to_uint32 (_mask_uint s)).

Definition isConstMaskOpaque (s : Span) : Checked bool :=
  FOG_ASSERT (isConst s) ;;;
  Pass (_mask_uint s =? 0x100).

Definition setConstMask `{Platform} (mask : Z) (s : Span) : Checked Span :=
  FOG_ASSERT (isConst s) ;;;
  Pass (with_mask (to_sysuint mask) s).

(** *** Glyph and extra interfaces *)

Definition getA8Glyph (s : Span) : Checked Z :=
  FOG_ASSERT ((getType s =? SPAN_A8_GLYPH) || (getType s =? SPAN_AX_GLYPH)) ;;;
  Pass (_mask_uint s).

Definition setA8Glyph (mask : Z) (s : Span) : Checked Span :=
  FOG_ASSERT ((getType s =? SPAN_A8_GLYPH) || (getType s =? SPAN_AX_GLYPH)) ;;;
  Pass (with_mask mask s).

Definition getA8Extra (s : Span) : Checked Z :=
  FOG_ASSERT (getType s =? SPAN_AX_EXTRA) ;;;
  Pass (_mask_uint s).

Definition setA8Extra (mask : Z) (s : Span) : Checked Span :=
  FOG_ASSERT (getType s =? SPAN_AX_EXTRA) ;;;
  Pass (with_mask mask s).

Definition getARGB32Glyph (s : Span) : Checked Z :=
  FOG_ASSERT ((getType s =? SPAN_ARGB32_GLYPH) || (getType s =? SPAN_ARGBXX_GLYPH)) ;;;
  Pass (_mask_uint s).

Definition setARGB32Glyph (mask : Z) (s : Span) : Checked Span :=
  FOG_ASSERT ((getType s =? SPAN_ARGB32_GLYPH) || (getType s =? SPAN_ARGBXX_GLYPH)) ;;;
  Pass (with_mask mask s).

(** *** Statics *)

Definition advanceData : list Z :=
  [ (* 00 - SPAN_C            *) 0;
    (* 01 - SPAN_A8_GLYPH     *) 1;
    (* 02 - SPAN_AX_GLYPH     *) 1;
    (* 03 - SPAN_AX_EXTRA     *) 2;
    (* 04 - SPAN_ARGB32_GLYPH *) 4;
    (* 05 - SPAN_ARGBXX_GLYPH *) 4;
    (* 06 - ...               *) 0 ].

(** [None] stands for a read past the end of [advanceData]. *)
Definition getMaskAdvance (type width : Z) : option Z :=
  match advanceData !! Z.to_nat type with
  | Some k => Some (int_mul width k)
  | None => None
  end.

Definition isConstMaskPointer `{Platform} (mask : Z) : bool :=
  to_sysuint mask <=? to_sysuint 0x100.

Definition isVariantMaskPointer `{Platform} (mask : Z) : bool :=
  to_sysuint mask >? to_sysuint 0x100.

Definition getConstMaskFromPointer `{Platform} (mask : Z) : Z :=
  to_uint32 (to_sysuint mask).

Definition getPointerFromConstMask `{Platform} (mask : Z) : Z :=
  to_sysuint mask.

End Span8.

(** ** Fog::Span16 *)

(** [Span16] derives from [Span] and adds no member either. *)
Module Span16.

(** *** Const-mask interface *)

Definition getConstMask (s : Span) : Checked Z :=
  FOG_ASSERT (isConst s) ;;;
  Pass (to_uint32 (_mask_uint s)).

Definition isConstMaskOpaque (s : Span) : Checked bool :=
  FOG_ASSERT (isConst s) ;;;
  Pass (_mask_uint s =? 0x10000).

Definition setConstMask `{Platform} (mask : Z) (s : Span) : Checked Span :=
  FOG_ASSERT (isConst s) ;;;
  Pass (with_mask (to_sysuint mask) s).

(** *** Glyph and extra interfaces *)

Definition getA8Glyph (s : Span) : Checked Z :=
  FOG_ASSERT (getType s =? SPAN_A8_GLYPH) ;;;
  Pass (_mask_uint s).

Definition setA8Glyph (mask : Z) (s : Span) : Checked Span :=
  FOG_ASSERT (getType s =? SPAN_A8_GLYPH) ;;;
  Pass (with_mask mask s).

Definition getA16Glyph (s : Span) : Checked Z :=
  FOG_ASSERT (getType s =? SPAN_AX_GLYPH) ;;;
  Pass (_mask_uint s).

Definition setA16Glyph (mask : Z) (s : Span) : Checked Span :=
  FOG_ASSERT (getType s =? SPAN_AX_GLYPH) ;;;
  Pass (with_mask mask s).

Definition getA16Extra (s : Span) : Checked Z :=
  FOG_ASSERT (getType s =? SPAN_AX_EXTRA) ;;;
  Pass (_mask_uint s).

Definition setA16Extra (mask : Z) (s : Span) : Checked Span :=
  FOG_ASSERT (getType s =? SPAN_AX_EXTRA) ;;;
  Pass (with_mask mask s).

Definition getARGB32Glyph (s : Span) : Checked Z :=
  FOG_ASSERT (getType s =? SPAN_ARGB32_GLYPH) ;;;
  Pass (_mask_uint s).

Definition setARGB32Glyph (mask : Z) (s : Span) : Checked Span :=
  FOG_ASSERT (getType s =? SPAN_ARGB32_GLYPH) ;;;
  Pass (with_mask mask s).

Definition getARGB64Glyph (s : Span) : Checked Z :=
  FOG_ASSERT (getType s =? SPAN_ARGBXX_GLYPH) ;;;
  Pass (_mask_uint s).

Definition setARGB64Glyph (mask : Z) (s : Span) : Checked Span :=
  FOG_ASSERT (getType s =? SPAN_ARGBXX_GLYPH) ;;;
  Pass (with_mask mask s).

(** *** Statics *)

Definition advanceData : list Z :=
  [ (* 00 - SPAN_C            *) 0;
    (* 01 - SPAN_A8_GLYPH     *) 1;
    (* 02 - SPAN_AX_GLYPH     *) 2;
    (* 03 - SPAN_AX_EXTRA     *) 4;
    (* 04 - SPAN_ARGB32_GLYPH *) 4;
    (* 05 - SPAN_ARGBXX_GLYPH *) 8;
    (* 06 - ...               *) 0 ].

Definition getMaskAdvance (type width : Z) : option Z :=
  match advanceData !! Z.to_nat type with
  | Some k => Some (int_mul width k)
  | None => None
  end.

End Span16.

(** ** Fog::RasterUtil: the compositing dispatch table *)

Module RasterUtil.

Local Open Scope nat_scope.

(** What a function pointer of the table can be bound to: the portable
    routine or a routine written for one CPU feature (MMX, SSE2, ...). *)
Inductive Routine : Type :=
| Portable
| Accelerated (feature : nat).

(** A function pointer; [None] is the null pointer. *)
Definition FnPtr : Type := option Routine.

(** [FunctionMap::RasterFuncs]: three solid-source slots and three
    variable-source slots, the latter indexed by the source pixel format. *)
Record RasterFuncs : Type := mkRasterFuncs {
  cspan : FnPtr;
  cspan_a8 : FnPtr;
  cspan_a8_const : FnPtr;
  vspan : list FnPtr;            (* VSpanFn vspan[PIXEL_FORMAT_COUNT] *)
  vspan_a8 : list FnPtr;         (* VSpanMskFn vspan_a8[PIXEL_FORMAT_COUNT] *)
  vspan_a8_const : list FnPtr    (* VSpanMskConstFn vspan_a8_const[PIXEL_FORMAT_COUNT] *)
}.

(** The [raster] member of [FunctionMap]:
    [RasterFuncs raster[COMPOSITE_COUNT][PIXEL_FORMAT_COUNT]]. *)
Record FunctionMap : Type := mkFunctionMap {
  raster : list (list RasterFuncs)
}.

Inductive Slot : Type :=
| SlotCSpan
| SlotCSpanA8
| SlotCSpanA8Const
| SlotVSpan (src : nat)
| SlotVSpanA8 (src : nat)
| SlotVSpanA8Const (src : nat).

Definition set_slot (slot : Slot) (fn : FnPtr) (b : RasterFuncs) : RasterFuncs :=
  match slot with
  | SlotCSpan =>
      mkRasterFuncs fn (cspan_a8 b) (cspan_a8_const b)
                    (vspan b) (vspan_a8 b) (vspan_a8_const b)
  | SlotCSpanA8 =>
      mkRasterFuncs (cspan b) fn (cspan_a8_const b)
                    (vspan b) (vspan_a8 b) (vspan_a8_const b)
  | SlotCSpanA8Const =>
      mkRasterFuncs (cspan b) (cspan_a8 b) fn
                    (vspan b) (vspan_a8 b) (vspan_a8_const b)
  | SlotVSpan src =>
      mkRasterFuncs (cspan b) (cspan_a8 b) (cspan_a8_const b)
                    (<[src := fn]> (vspan b)) (vspan_a8 b) (vspan_a8_const b)
  | SlotVSpanA8 src =>
      mkRasterFuncs (cspan b) (cspan_a8 b) (cspan_a8_const b)
                    (vspan b) (<[src := fn]> (vspan_a8 b)) (vspan_a8_const b)
  | SlotVSpanA8Const src =>
      mkRasterFuncs (cspan b) (cspan_a8 b) (cspan_a8_const b)
                    (vspan b) (vspan_a8 b) (<[src := fn]> (vspan_a8_const b))
  end.

(** One replacement made by the capability probe:
    [raster[op][format].slot = routine], made only when the CPU has
    [feature]. *)
Record Override : Type := mkOverride {
  ov_feature : nat;
  ov_op : nat;
  ov_format : nat;
  ov_slot : Slot
}.

(** All six slots of a bundle are bound. *)
Definition populated (formats : nat) (b : RasterFuncs) : Prop :=
  is_Some (cspan b) /\ is_Some (cspan_a8 b) /\ is_Some (cspan_a8_const b) /\
  (forall src, src < formats -> exists r, vspan b !! src = Some (Some r)) /\
  (forall src, src < formats -> exists r, vspan_a8 b !! src = Some (Some r)) /\
  (forall src, src < formats -> exists r, vspan_a8_const b !! src = Some (Some r)).

Section Table.

(** Modelled from the spec: [PIXEL_FORMAT_COUNT] and [COMPOSITE_COUNT]
    are declared in [Fog/Graphics/Constants.h], which is not among the
    sources; the table is described for any number of formats and
    operators. *)
Variable PIXEL_FORMAT_COUNT : nat.
Variable COMPOSITE_COUNT : nat.

(** The table before initialization: static storage, every pointer null. *)
Definition null_funcs : RasterFuncs :=
  mkRasterFuncs None None None
    (replicate PIXEL_FORMAT_COUNT None)
    (replicate PIXEL_FORMAT_COUNT None)
    (replicate PIXEL_FORMAT_COUNT None).

Definition zeroed : FunctionMap :=
  mkFunctionMap (replicate COMPOSITE_COUNT (replicate PIXEL_FORMAT_COUNT null_funcs)).

Definition baseline_funcs : RasterFuncs :=
  mkRasterFuncs (Some Portable) (Some Portable) (Some Portable)
    (replicate PIXEL_FORMAT_COUNT (Some Portable))
    (replicate PIXEL_FORMAT_COUNT (Some Portable))
    (replicate PIXEL_FORMAT_COUNT (Some Portable)).

(** Modelled from the spec: the initialization code of the function map
    is not among the sources.  Spec, part 4.3: a scalar baseline
    is installed for every (format, operator) pair first. *)
Definition install_baseline (m : FunctionMap) : FunctionMap :=
  mkFunctionMap
    ((fun row : list RasterFuncs =>
        (fun _ : RasterFuncs => baseline_funcs) <$> row) <$> raster m).

(** Modelled from the spec: the capability probe of the initialization
    code is not among the sources.  Spec, part 4.3: the probe
    conditionally replaces specific entries with faster
    implementations.  A replacement aimed outside the table is not
    performed. *)
Definition apply_override (cpu : nat -> bool) (m : FunctionMap) (o : Override) : FunctionMap :=
  if cpu (ov_feature o) then
    match raster m !! ov_op o with
    | Some row =>
        match row !! ov_format o with
        | Some b =>
            let b' := set_slot (ov_slot o) (Some (Accelerated (ov_feature o))) b in
            mkFunctionMap (<[ov_op o := <[ov_format o := b']> row]> (raster m))
        | None => m
        end
    | None => m
    end
  else m.

Definition init (cpu : nat -> bool) (probe : list Override) : FunctionMap :=
  foldl (apply_override cpu) (install_baseline zeroed) probe.

(** Modelled from the spec: [getRasterOps] is declared in
    [RasterUtil.h] and defined in a file that is not among the sources.
    Spec, part 4.3: lookup is a constant-time access by
    (format, operator), that is, the address of [raster[op][format]];
    [None] is the null pointer. *)
Definition getRasterOps (m : FunctionMap) (format op : Z) : option RasterFuncs :=
  if ((0 <=? format)%Z && (0 <=? op)%Z)%bool then
    match raster m !! Z.to_nat op with
    | Some row => row !! Z.to_nat format
    | None => None
    end
  else None.

(** Invariant of the table after the baseline has been installed. *)
Definition fully_populated (m : FunctionMap) : Prop :=
  length (raster m) = COMPOSITE_COUNT /\
  forall op row, raster m !! op = Some row ->
    length row = PIXEL_FORMAT_COUNT /\
    forall fmt b, row !! fmt = Some b ->
      populated PIXEL_FORMAT_COUNT b.

End Table.

(** *** Pattern contexts *)

(** The payload union of [PatternContext], by kind.  Per the comments of
    the structure, a texture context holds an image that "must be
    destroyed when context is destroyed", and a gradient context holds a
    dynamically allocated [colors] table that "must be free when context
    is destroyed".  Resources are named by their address. *)
Inductive Payload : Type :=
| PSolid (prgb : Z)
| PTexture (texture : nat)
| PScale
| PLinearGradient (colors : nat)
| PRadialGradient (colors : nat)
| PConicalGradient (colors : nat).

Definition owned (p : Payload) : option nat :=
  match p with
  | PSolid _ => None
  | PTexture texture => Some texture
  | PScale => None
  | PLinearGradient colors => Some colors
  | PRadialGradient colors => Some colors
  | PConicalGradient colors => Some colors
  end.

(** The members of [PatternContext] the life cycle depends on.
    [refCount] is an unsigned counter ([Atomic<sysuint_t>]); counts beyond
    the range of [sysuint_t] are outside the model. *)
Record PatternContext : Type := mkPatternContext {
  refCount : nat;
  initialized : bool;
  payload : Payload
}.

(** A context together with the allocations that are alive and the number
    of times its [destroy] function has been called. *)
Record World : Type := mkWorld {
  ctx : PatternContext;
  live : gset nat;
  destroy_calls : nat
}.

Definition free (r : option nat) (heap : gset nat) : gset nat :=
  match r with
  | Some a => heap ∖ {[ a ]}
  | None => heap
  end.

Definition is_live (r : option nat) (heap : gset nat) : Prop :=
  match r with
  | Some a => a ∈ heap
  | None => True
  end.

Definition is_freed (r : option nat) (heap : gset nat) : Prop :=
  match r with
  | Some a => a ∉ heap
  | None => True
  end.

(** Modelled from the spec: the [destroy] functions bound to a context
    are not among the sources.  Spec, part 3: destroy frees any
    owned ramp table or texture handle; a destroyed context is no longer
    initialized. *)
Definition destroy (w : World) : World :=
  mkWorld
    (mkPatternContext (refCount (ctx w)) false (payload (ctx w)))
    (free (owned (payload (ctx w))) (live w))
    (S (destroy_calls w)).

(** Modelled from the spec: the code that takes and drops references is
    not among the sources.  Spec, part 4.2: any holder may
    increment the count before storing an extra handle. *)
Definition addRef (w : World) : World :=
  mkWorld
    (mkPatternContext (S (refCount (ctx w))) (initialized (ctx w)) (payload (ctx w)))
    (live w)
    (destroy_calls w).

(** Modelled from the spec: the code that drops a reference is not among
    the sources.  Spec, part 3 and the comment of the [destroy]
    member ("you must call it if reference count was decreased to zero"):
    the count is decremented, and the decrement that reaches zero calls
    [destroy]. *)
Definition release (w : World) : World :=
  let n := pred (refCount (ctx w)) in
  let w' :=
    mkWorld (mkPatternContext n (initialized (ctx w)) (payload (ctx w)))
            (live w) (destroy_calls w) in
  if Nat.eqb n 0 then destroy w' else w'.

Inductive Op : Type :=
| OpAddRef
| OpRelease.

(** A holder performs [op].  When the count is zero there is no holder
    left, so nothing can be performed ([None]). *)
Definition step (w : World) (op : Op) : option World :=
  if Nat.eqb (refCount (ctx w)) 0 then None
  else Some (match op with
             | OpAddRef => addRef w
             | OpRelease => release w
             end).

Fixpoint run (w : World) (ops : list Op) : option World :=
  match ops with
  | [] => Some w
  | op :: ops' =>
      match step w op with
      | Some w' => run w' ops'
      | None => None
      end
  end.

(** Modelled from the spec: the [init] functions are not among the
    sources.  Spec, part 4.2: a successful init populates the
    payload and sets initialized; the creator holds the first reference
    and the payload's resource has been allocated. *)
Definition created (p : Payload) (heap : gset nat) : World :=
  mkWorld
    (mkPatternContext 1 true p)
    (match owned p with Some a => {[ a ]} ∪ heap | None => heap end)
    0.

(** What holds of a context of payload [p] at every moment of its life:
    while references remain, [destroy] has not been called and the owned
    resource is alive; once the count is zero, [destroy] has been called
    once and the resource is freed. *)
Definition life_cycle_inv (p : Payload) (w : World) : Prop :=
  payload (ctx w) = p /\
  if Nat.eqb (refCount (ctx w)) 0 then
    destroy_calls w = 1 /\ initialized (ctx w) = false /\
    is_freed (owned p) (live w)
  else
    destroy_calls w = 0 /\ initialized (ctx w) = true /\
    is_live (owned p) (live w).

End RasterUtil.

(** ** Counting *)

(** How many of the answers in [l] are [true]. *)
Fixpoint passing (l : list bool) : nat :=
  match l with
  | [] => 0%nat
  | b :: l' => (Nat.b2n b + passing l')%nat
  end.

(** * Properties *)

(** ** Conversions between integer types *)

Lemma wrap_unsigned_range (bits z : Z) :
  0 <= bits -> 0 <= wrap_unsigned bits z < 2 ^ bits.
Proof.
  intros Hb. unfold wrap_unsigned.
  apply Z.mod_pos_bound. apply Z.pow_pos_nonneg; lia.
Qed.

Lemma wrap_unsigned_small (bits z : Z) :
  0 <= z < 2 ^ bits -> wrap_unsigned bits z = z.
Proof. intros Hz. unfold wrap_unsigned. apply Z.mod_small. exact Hz. Qed.

Lemma wrap_unsigned_le (bits z : Z) :
  0 <= bits -> 0 <= z -> wrap_unsigned bits z <= z.
Proof.
  intros Hb Hz. unfold wrap_unsigned.
  apply Z.mod_le; [exact Hz | apply Z.pow_pos_nonneg; lia].
Qed.

Lemma two_pow_29 : 2 ^ 29 = 536870912.
Proof. reflexivity. Qed.

Lemma two_pow_31 : 2 ^ 31 = 2147483648.
Proof. reflexivity. Qed.

Lemma two_pow_32 : 2 ^ 32 = 4294967296.
Proof. reflexivity. Qed.

Ltac unfold_ints :=
  unfold is_int, is_uint32, INT_MAX, INT_MIN, UINT32_MAX in *;
  rewrite ?two_pow_29, ?two_pow_31, ?two_pow_32 in *.

Lemma to_uint32_small (z : Z) : is_uint32 z -> to_uint32 z = z.
Proof.
  intros Hz. unfold to_uint32. apply wrap_unsigned_small.
  unfold_ints. lia.
Qed.

Lemma to_uint_small (z : Z) : is_uint32 z -> to_uint z = z.
Proof. exact (to_uint32_small z). Qed.

Lemma to_uint32_range (z : Z) : is_uint32 (to_uint32 z).
Proof.
  pose proof (wrap_unsigned_range 32 z ltac:(lia)) as H.
  unfold to_uint32. unfold_ints. lia.
Qed.

Lemma to_int_small (z : Z) : is_int z -> to_int z = z.
Proof.
  intros Hz. unfold to_int, wrap_signed.
  change (2 ^ (32 - 1)) with (2 ^ 31).
  unfold_ints.
  rewrite Z.mod_small; lia.
Qed.

Lemma to_int_high (z : Z) : 2 ^ 31 <= z < 2 ^ 32 -> to_int z = z - 2 ^ 32.
Proof.
  intros Hz. unfold to_int, wrap_signed.
  change (2 ^ (32 - 1)) with (2 ^ 31).
  unfold_ints.
  replace (z + 2147483648) with ((z - 2147483648) + 1 * 4294967296) by lia.
  rewrite Z.mod_add by lia.
  rewrite Z.mod_small; lia.
Qed.

Lemma to_int_range (z : Z) : is_int (to_int z).
Proof.
  unfold to_int, wrap_signed.
  change (2 ^ (32 - 1)) with (2 ^ 31).
  pose proof (Z.mod_pos_bound (z + 2 ^ 31) (2 ^ 32) ltac:(lia)) as H.
  unfold_ints. lia.
Qed.

Lemma to_bitfield_29_small (z : Z) : 0 <= z < 2 ^ 29 -> to_bitfield 29 z = z.
Proof. intros Hz. unfold to_bitfield. apply wrap_unsigned_small. exact Hz. Qed.

(** An [int] that is not negative keeps its value as [uint] and [uint32_t]. *)
Lemma nonneg_int_as_uint32 (z : Z) :
  is_int z -> 0 <= z -> to_uint32 (to_uint z) = z.
Proof.
  intros Hz Hpos.
  assert (is_uint32 z) as Hu by (unfold_ints; lia).
  rewrite (to_uint_small z Hu). apply to_uint32_small. exact Hu.
Qed.

(** ** Debug assertions *)

Lemma FOG_ASSERT_pass (c : bool) : FOG_ASSERT c = Pass tt <-> c = true.
Proof. destruct c; simpl; split; congruence. Qed.

Lemma FOG_ASSERT_fail (c : bool) : FOG_ASSERT c = AssertFail <-> c = false.
Proof. destruct c; simpl; split; congruence. Qed.

Lemma assert_then {A : Type} (c : bool) (k : Checked A) :
  (FOG_ASSERT c ;;; k) = if c then k else AssertFail.
Proof. destruct c; reflexivity. Qed.

(** ** Well-formedness is kept by the mutators *)

Section Wellformed.

Context `{Platform}.

Lemma setX0_wf (x0 : Z) (s s' : Span) :
  Span_wf s -> setX0 x0 s = Pass s' -> Span_wf s'.
Proof.
  unfold setX0. rewrite assert_then.
  destruct (0 <=? x0); [|discriminate].
  intros (H0 & Ht & H1 & Hm) [= <-].
  refine (conj _ (conj Ht (conj H1 Hm))). simpl.
  apply wrap_unsigned_range; lia.
Qed.

Lemma setX1_wf (x1 : Z) (s s' : Span) :
  Span_wf s -> setX1 x1 s = Pass s' -> Span_wf s'.
Proof.
  unfold setX1. rewrite assert_then.
  destruct (0 <=? x1); [|discriminate].
  intros (H0 & Ht & H1 & Hm) [= <-].
  refine (conj H0 (conj Ht (conj _ Hm))). simpl.
  apply to_uint32_range.
Qed.

Lemma setPosition_wf (x0 x1 : Z) (s s' : Span) :
  Span_wf s -> setPosition x0 x1 s = Pass s' -> Span_wf s'.
Proof.
  unfold setPosition. rewrite !assert_then.
  destruct (0 <=? x0); [|discriminate].
  destruct (0 <=? x1); [|discriminate].
  destruct (x0 <? x1); [|discriminate].
  intros (H0 & Ht & H1 & Hm) [= <-].
  refine (conj _ (conj Ht (conj _ Hm))); simpl.
  - apply wrap_unsigned_range; lia.
  - apply to_uint32_range.
Qed.

End Wellformed.

(** ** Span: constant and variant kinds *)

(** C4.  For every span whose type is one of the enumerated kinds
    ([type < SPAN_COUNT], what [setType] accepts), exactly one of [isConst]
    and [isVariant] is true; [isConst] holds exactly below the threshold
    [SPAN_V_BEGIN] and [isVariant] exactly from it on. *)
Theorem isConst_isVariant_partition (s : Span) :
  0 <= getType s < SPAN_COUNT ->
  xorb (isConst s) (isVariant s) = true /\
  (isConst s = true <-> getType s < SPAN_V_BEGIN) /\
  (isVariant s = true <-> SPAN_V_BEGIN <= getType s).
Proof.
  intros _. unfold isConst, isVariant, getType.
  destruct (Z.ltb_spec (_type s) SPAN_V_BEGIN) as [Hlt | Hge];
    destruct (Z.leb_spec SPAN_V_BEGIN (_type s)) as [Hle | Hgt];
    simpl; try (exfalso; lia).
  - split; [reflexivity|]. split; split; (congruence || lia).
  - split; [reflexivity|]. split; split; (congruence || lia).
Qed.

Lemma isConst_isVariant_partition_witness :
  xorb (isConst (mkSpan 0 SPAN_AX_EXTRA 8 4096 NULL))
       (isVariant (mkSpan 0 SPAN_AX_EXTRA 8 4096 NULL)) = true.
Proof.
  refine (proj1 (isConst_isVariant_partition (mkSpan 0 SPAN_AX_EXTRA 8 4096 NULL) _)).
  vm_compute. split; congruence.
Defined.

Lemma isVariant_negb_isConst (s : Span) : isVariant s = negb (isConst s).
Proof.
  unfold isConst, isVariant.
  destruct (Z.ltb_spec (_type s) SPAN_V_BEGIN);
    destruct (Z.leb_spec SPAN_V_BEGIN (_type s)); simpl; (reflexivity || lia).
Qed.

(** ** Span: position and length *)

(** C5, as stated, fails: [span_to_2_pow_31] holds values its members can
    hold and is valid, and its length is [INT_MIN]. *)
Lemma valid_span_length_counterexample :
  @Span_wf LP64 span_to_2_pow_31 /\
  isValid span_to_2_pow_31 = true /\
  getLength span_to_2_pow_31 = INT_MIN /\
  ~ 0 < getLength span_to_2_pow_31.
Proof.
  split; [|split; [|split]].
  - vm_compute. repeat split; congruence.
  - reflexivity.
  - reflexivity.
  - vm_compute. congruence.
Qed.

(** Every position setter that passes its assertions on [int] arguments
    leaves an end coordinate of at most [INT_MAX]. *)
Lemma position_setters_bound_x1 (s s' : Span) (x0 x1 type : Z) :
  is_int x1 ->
  _x1 s <= INT_MAX ->
  setX0 x0 s = Pass s' \/ setX1 x1 s = Pass s' \/
  setPosition x0 x1 s = Pass s' \/ setPositionAndType x0 x1 type s = Pass s' ->
  _x1 s' <= INT_MAX.
Proof.
  intros Hx1 Hold.
  unfold setX0, setX1, setPosition, setPositionAndType.
  rewrite !assert_then.
  destruct (Z.leb_spec 0 x0) as [Hp0|], (Z.leb_spec 0 x1) as [Hp1|],
           (Z.ltb_spec x0 x1) as [Hlt|];
    intros [Hs | [Hs | [Hs | Hs]]]; try discriminate;
    injection Hs as <-; simpl; try exact Hold;
    rewrite ?(nonneg_int_as_uint32 x1 Hx1 Hp1);
    rewrite ?(to_uint32_small x1) by (unfold_ints; lia);
    apply Hx1.
Qed.

(** C5, amended.  For every span that [isValid] accepts and whose end
    coordinate is at most [INT_MAX] (which the [x1 >= 0] assertion of every
    position setter ensures for its [int] argument), [getLength] equals
    [getX1 - getX0] and is strictly positive. *)
Theorem valid_span_length `{Platform} (s : Span) :
  Span_wf s ->
  isValid s = true ->
  _x1 s <= INT_MAX ->
  getX0 s < getX1 s /\
  getLength s = getX1 s - getX0 s /\
  0 < getLength s.
Proof.
  intros (H0 & _ & H1 & _) Hvalid Hmax.
  unfold isValid in Hvalid. apply andb_true_iff in Hvalid as [Hlt _].
  apply Z.ltb_lt in Hlt.
  unfold getX0, getX1, getLength.
  unfold_ints.
  rewrite (to_uint32_small (_x1 s - _x0 s)) by (unfold_ints; lia).
  rewrite !to_int_small by (unfold_ints; lia).
  lia.
Qed.

Lemma valid_span_length_witness :
  getLength (mkSpan 3 SPAN_C 10 0x100 NULL) = 7.
Proof.
  destruct (@valid_span_length LP64 (mkSpan 3 SPAN_C 10 0x100 NULL)) as (_ & Hlen & _).
  - vm_compute. repeat split; congruence.
  - reflexivity.
  - vm_compute. congruence.
  - rewrite Hlen. reflexivity.
Defined.

(** C9.  [setX0] with a non-negative [int] always passes its assertion and
    stores the argument modulo [2^29]: [getX0] gives the argument back when
    it is below [2^29] and a different value otherwise.  [setX1] keeps every
    non-negative [int]. *)
Theorem setX0_getX0_roundtrip (s : Span) (x0 x1 : Z) :
  is_int x0 -> 0 <= x0 ->
  is_int x1 -> 0 <= x1 ->
  (exists s0,
     setX0 x0 s = Pass s0 /\
     getX0 s0 = x0 mod 2 ^ 29 /\
     (x0 < 2 ^ 29 -> getX0 s0 = x0) /\
     (2 ^ 29 <= x0 -> getX0 s0 <> x0)) /\
  (exists s1, setX1 x1 s = Pass s1 /\ getX1 s1 = x1).
Proof.
  intros Hx0 Hpos0 Hx1 Hpos1. split.
  - exists (with_x0 (to_bitfield 29 (to_uint32 (to_uint x0))) s).
    assert (getX0 (with_x0 (to_bitfield 29 (to_uint32 (to_uint x0))) s)
            = x0 mod 2 ^ 29) as Hget.
    { unfold getX0. simpl.
      rewrite (nonneg_int_as_uint32 x0 Hx0 Hpos0).
      unfold to_bitfield, wrap_unsigned.
      pose proof (Z.mod_pos_bound x0 (2 ^ 29) ltac:(lia)) as Hb.
      apply to_int_small. unfold_ints. lia. }
    split; [|split; [|split]].
    + unfold setX0. rewrite assert_then.
      destruct (Z.leb_spec 0 x0); [reflexivity | lia].
    + exact Hget.
    + intros Hsmall. rewrite Hget. apply Z.mod_small. lia.
    + intros Hbig. rewrite Hget.
      pose proof (Z.mod_pos_bound x0 (2 ^ 29) ltac:(lia)) as Hb. lia.
  - exists (with_x1 (to_uint32 (to_uint x1)) s). split.
    + unfold setX1. rewrite assert_then.
      destruct (Z.leb_spec 0 x1); [reflexivity | lia].
    + unfold getX1. simpl.
      rewrite (nonneg_int_as_uint32 x1 Hx1 Hpos1).
      apply to_int_small. exact Hx1.
Qed.

Lemma setX0_getX0_roundtrip_witness :
  exists s0,
    setX0 (2 ^ 29 + 5) (mkSpan 0 SPAN_C 10 0x100 NULL) = Pass s0 /\
    getX0 s0 = 5.
Proof.
  destruct (setX0_getX0_roundtrip (mkSpan 0 SPAN_C 10 0x100 NULL) (2 ^ 29 + 5) 7)
    as [(s0 & Hset & Hget & _) _].
  - vm_compute. split; congruence.
  - vm_compute. congruence.
  - vm_compute. split; congruence.
  - vm_compute. congruence.
  - exists s0. split; [exact Hset|]. rewrite Hget. reflexivity.
Defined.

(** C3, as stated, fails for [setX0] and [setX1]: on the valid span
    [span_0_3], [setX0 5] passes its only assertion and leaves a span that
    starts at 5 and ends at 3; on the same span [setX1 0] passes and leaves
    a span from 0 to 0. *)
Lemma setters_reject_degenerate_counterexample :
  isValid span_0_3 = true /\
  setX0 5 span_0_3 = Pass (mkSpan 5 SPAN_C 3 0x100 NULL) /\
  getX1 (mkSpan 5 SPAN_C 3 0x100 NULL) <= getX0 (mkSpan 5 SPAN_C 3 0x100 NULL) /\
  setX1 0 span_0_3 = Pass (mkSpan 0 SPAN_C 0 0x100 NULL) /\
  getX1 (mkSpan 0 SPAN_C 0 0x100 NULL) <= getX0 (mkSpan 0 SPAN_C 0 0x100 NULL).
Proof.
  repeat split; vm_compute; congruence.
Qed.

Lemma setPosition_stores_ordered (x0 x1 : Z) :
  is_int x1 -> 0 <= x0 -> x0 < x1 ->
  to_int (to_bitfield 29 x0) < to_int (to_uint32 x1).
Proof.
  intros Hx1 Hpos Hlt.
  assert (is_uint32 x1) as Hu by (unfold_ints; lia).
  rewrite (to_uint32_small x1 Hu).
  pose proof (wrap_unsigned_range 29 x0 ltac:(lia)) as Hr.
  pose proof (wrap_unsigned_le 29 x0 ltac:(lia) Hpos) as Hle.
  unfold to_bitfield.
  rewrite !to_int_small by (unfold_ints; lia).
  lia.
Qed.

(** C3, amended.  [setPosition] and [setPositionAndType] stop at a debug
    assertion whenever [x0 >= x1] and whenever a coordinate is negative
    (they pass exactly when [0 <= x0], [0 <= x1] and [x0 < x1]), and a span
    they return has [x0 < x1]; [setX0] and [setX1] assert only that their
    argument is not negative and do not compare it with the other
    coordinate. *)
Theorem setPosition_rejects_degenerate (s : Span) (x0 x1 type : Z) :
  is_int x0 -> is_int x1 ->
  (x1 <= x0 ->
     setPosition x0 x1 s = AssertFail /\
     setPositionAndType x0 x1 type s = AssertFail) /\
  (forall s',
     setPosition x0 x1 s = Pass s' \/ setPositionAndType x0 x1 type s = Pass s' ->
     getX0 s' < getX1 s') /\
  passes (setX0 x0 s) = (0 <=? x0) /\
  passes (setX1 x1 s) = (0 <=? x1) /\
  (x0 < 0 \/ x1 < 0 ->
     setPosition x0 x1 s = AssertFail /\
     setPositionAndType x0 x1 type s = AssertFail) /\
  passes (setPosition x0 x1 s) = (0 <=? x0) && (0 <=? x1) && (x0 <? x1) /\
  passes (setPositionAndType x0 x1 type s)
  = (0 <=? x0) && (0 <=? x1) && (x0 <? x1).
Proof.
  intros Hx0 Hx1.
  split; [|split; [|split; [|split; [|split; [|split]]]]].
  - intros Hge. unfold setPosition, setPositionAndType. rewrite !assert_then.
    destruct (Z.ltb_spec x0 x1); [lia|].
    destruct (0 <=? x0), (0 <=? x1); split; reflexivity.
  - intros s'. unfold setPosition, setPositionAndType. rewrite !assert_then.
    destruct (Z.leb_spec 0 x0) as [Hp0|]; [|intros [|]; discriminate].
    destruct (Z.leb_spec 0 x1) as [Hp1|]; [|intros [|]; discriminate].
    destruct (Z.ltb_spec x0 x1) as [Hlt|]; [|intros [|]; discriminate].
    intros [[= <-] | [= <-]]; unfold getX0, getX1; simpl.
    + apply setPosition_stores_ordered; assumption.
    + rewrite (nonneg_int_as_uint32 x0 Hx0 Hp0).
      replace (to_uint32 (to_uint x1)) with (to_uint32 x1).
      * apply setPosition_stores_ordered; assumption.
      * rewrite (nonneg_int_as_uint32 x1 Hx1 Hp1).
        apply to_uint32_small. unfold_ints. lia.
  - unfold setX0. rewrite assert_then. destruct (0 <=? x0); reflexivity.
  - unfold setX1. rewrite assert_then. destruct (0 <=? x1); reflexivity.
  - intros Hneg. unfold setPosition, setPositionAndType. rewrite !assert_then.
    destruct (Z.leb_spec 0 x0); [|split; reflexivity].
    destruct (Z.leb_spec 0 x1); [lia | split; reflexivity].
  - unfold setPosition. rewrite !assert_then.
    destruct (0 <=? x0), (0 <=? x1), (x0 <? x1); reflexivity.
  - unfold setPositionAndType. rewrite !assert_then.
    destruct (0 <=? x0), (0 <=? x1), (x0 <? x1); reflexivity.
Qed.

Lemma setPosition_rejects_degenerate_witness :
  setPosition 7 7 span_0_3 = AssertFail /\
  setPositionAndType 7 7 SPAN_A8_GLYPH span_0_3 = AssertFail.
Proof.
  refine (proj1 (setPosition_rejects_degenerate span_0_3 7 7 SPAN_A8_GLYPH _ _) _).
  - vm_compute. split; congruence.
  - vm_compute. split; congruence.
  - lia.
Defined.

(** ** Span8 and Span16: mask accessors *)

(** C7.  On a variant span the const-mask accessors of both families stop
    at their assertion, and on a constant span the variant-mask accessors
    do; when the kind of the span matches the accessor, the assertion
    passes and the accessor reads or writes the mask member. *)
Theorem mask_accessor_kind_checked `{Platform} (s : Span) (m p : Z) :
  (isVariant s = true ->
     Span8.getConstMask s = AssertFail /\
     Span8.setConstMask m s = AssertFail /\
     Span16.getConstMask s = AssertFail /\
     Span16.setConstMask m s = AssertFail /\
     getVariantMask s = Pass (_mask_uint s) /\
     setVariantMask p s = Pass (with_mask p s)) /\
  (isConst s = true ->
     getVariantMask s = AssertFail /\
     setVariantMask p s = AssertFail /\
     Span8.getConstMask s = Pass (to_uint32 (_mask_uint s)) /\
     Span8.setConstMask m s = Pass (with_mask (to_sysuint m) s) /\
     Span16.getConstMask s = Pass (to_uint32 (_mask_uint s)) /\
     Span16.setConstMask m s = Pass (with_mask (to_sysuint m) s)).
Proof.
  unfold Span8.getConstMask, Span8.setConstMask,
         Span16.getConstMask, Span16.setConstMask,
         getVariantMask, setVariantMask.
  rewrite !assert_then, (isVariant_negb_isConst s).
  destruct (isConst s); simpl; split; intros Hkind;
    try discriminate; repeat split.
Qed.

Lemma mask_accessor_kind_checked_witness :
  Span8.getConstMask (mkSpan 0 SPAN_A8_GLYPH 8 4096 NULL) = AssertFail /\
  getVariantMask (mkSpan 0 SPAN_C 8 0x80 NULL) = AssertFail.
Proof.
  split.
  - refine (proj1 (proj1 (@mask_accessor_kind_checked LP64
                            (mkSpan 0 SPAN_A8_GLYPH 8 4096 NULL) 0 0) _)).
    reflexivity.
  - refine (proj1 (proj2 (@mask_accessor_kind_checked LP64
                            (mkSpan 0 SPAN_C 8 0x80 NULL) 0 0) _)).
    reflexivity.
Defined.

(** C10.  On a constant span [isConstMaskOpaque] answers true exactly when
    the mask member is [0x100] in the 8-bit family and exactly when it is
    [0x10000] in the 16-bit family; the largest byte value 255 (and the
    largest 16-bit value 65535) is not opaque.  The mask member is the value
    [getConstMask] returns whenever it fits 32 bits, as every value stored
    by [setConstMask] does. *)
Theorem isConstMaskOpaque_exact (s : Span) :
  isConst s = true ->
  (exists b8, Span8.isConstMaskOpaque s = Pass b8 /\
              (b8 = true <-> _mask_uint s = 0x100)) /\
  (exists b16, Span16.isConstMaskOpaque s = Pass b16 /\
               (b16 = true <-> _mask_uint s = 0x10000)) /\
  (_mask_uint s = 0xFF -> Span8.isConstMaskOpaque s = Pass false) /\
  (_mask_uint s = 0xFFFF -> Span16.isConstMaskOpaque s = Pass false) /\
  (is_uint32 (_mask_uint s) ->
     Span8.getConstMask s = Pass (_mask_uint s) /\
     Span16.getConstMask s = Pass (_mask_uint s)).
Proof.
  intros Hconst.
  unfold Span8.isConstMaskOpaque, Span16.isConstMaskOpaque,
         Span8.getConstMask, Span16.getConstMask.
  rewrite !assert_then, Hconst.
  split; [|split; [|split; [|split]]].
  - exists (_mask_uint s =? 0x100). split; [reflexivity | apply Z.eqb_eq].
  - exists (_mask_uint s =? 0x10000). split; [reflexivity | apply Z.eqb_eq].
  - intros ->. reflexivity.
  - intros ->. reflexivity.
  - intros Hfits. rewrite (to_uint32_small _ Hfits). split; reflexivity.
Qed.

Lemma isConstMaskOpaque_exact_witness :
  Span8.isConstMaskOpaque (mkSpan 0 SPAN_C 8 0xFF NULL) = Pass false /\
  Span8.isConstMaskOpaque (mkSpan 0 SPAN_C 8 0x100 NULL) = Pass true.
Proof.
  destruct (isConstMaskOpaque_exact (mkSpan 0 SPAN_C 8 0xFF NULL))
    as (_ & _ & H255 & _ & _); [reflexivity|].
  destruct (isConstMaskOpaque_exact (mkSpan 0 SPAN_C 8 0x100 NULL))
    as ((b8 & Hb8 & Hiff) & _); [reflexivity|].
  split.
  - apply H255. reflexivity.
  - rewrite Hb8. f_equal. apply Hiff. reflexivity.
Defined.

(** What [setConstMask] stores is what [getConstMask] and
    [isConstMaskOpaque] then see. *)
Lemma setConstMask_then_opaque `{Platform} (s : Span) (m : Z) :
  32 <= sysuint_bits -> is_uint32 m -> isConst s = true ->
  exists s',
    Span8.setConstMask m s = Pass s' /\
    Span8.getConstMask s' = Pass m /\
    Span8.isConstMaskOpaque s' = Pass (m =? 0x100) /\
    Span16.isConstMaskOpaque s' = Pass (m =? 0x10000).
Proof.
  intros Hbits Hm Hconst.
  assert (to_sysuint m = m) as Hsys.
  { unfold to_sysuint. apply wrap_unsigned_small.
    pose proof (Z.pow_le_mono_r 2 32 sysuint_bits ltac:(lia) Hbits).
    unfold_ints. lia. }
  exists (with_mask (to_sysuint m) s).
  unfold Span8.setConstMask, Span8.getConstMask,
         Span8.isConstMaskOpaque, Span16.isConstMaskOpaque.
  rewrite !assert_then.
  change (isConst (with_mask (to_sysuint m) s)) with (isConst s).
  rewrite Hconst. simpl. rewrite Hsys, (to_uint32_small m Hm).
  repeat split.
Qed.

(** ** Span8: constant masks encoded as pointers *)

Lemma to_sysuint_small `{Platform} (z : Z) :
  32 <= sysuint_bits -> is_uint32 z -> to_sysuint z = z.
Proof.
  intros Hbits Hz. unfold to_sysuint. apply wrap_unsigned_small.
  pose proof (Z.pow_le_mono_r 2 32 sysuint_bits ltac:(lia) Hbits).
  unfold_ints. lia.
Qed.

Lemma to_sysuint_id `{Platform} (p : Z) : is_sysuint p -> to_sysuint p = p.
Proof. intros Hp. unfold to_sysuint. apply wrap_unsigned_small. exact Hp. Qed.

(** C6.  For every pointer-sized value [p] exactly one of
    [isConstMaskPointer] and [isVariantMaskPointer] holds, the constant side
    being the values up to and including [0x100]; and every constant mask
    value survives the trip through [getPointerFromConstMask] and
    [getConstMaskFromPointer], values up to [0x100] being classified as
    constant on the way. *)
Theorem const_mask_pointer_encoding `{Platform} (p m : Z) :
  32 <= sysuint_bits ->
  is_sysuint p ->
  is_uint32 m ->
  xorb (Span8.isConstMaskPointer p) (Span8.isVariantMaskPointer p) = true /\
  (Span8.isConstMaskPointer p = true <-> p <= 0x100) /\
  Span8.isConstMaskPointer 0x100 = true /\
  Span8.isVariantMaskPointer 0x100 = false /\
  Span8.getConstMaskFromPointer (Span8.getPointerFromConstMask m) = m /\
  (m <= 0x100 ->
     Span8.isConstMaskPointer (Span8.getPointerFromConstMask m) = true).
Proof.
  intros Hbits Hp Hm.
  assert (to_sysuint 0x100 = 0x100) as H100
    by (apply to_sysuint_small; [exact Hbits | unfold_ints; lia]).
  pose proof (to_sysuint_id p Hp) as Hpid.
  pose proof (to_sysuint_small m Hbits Hm) as Hmid.
  unfold Span8.isConstMaskPointer, Span8.isVariantMaskPointer,
         Span8.getConstMaskFromPointer, Span8.getPointerFromConstMask.
  rewrite !Hmid, !Hpid, !H100, (to_uint32_small m Hm).
  rewrite Z.gtb_ltb.
  split; [|split; [|split; [|split; [|split]]]].
  - destruct (Z.leb_spec p 256), (Z.ltb_spec 256 p); simpl; (reflexivity || lia).
  - apply Z.leb_le.
  - reflexivity.
  - reflexivity.
  - reflexivity.
  - intros Hle. apply Z.leb_le. exact Hle.
Qed.

Lemma const_mask_pointer_encoding_witness :
  @Span8.getConstMaskFromPointer LP64 (@Span8.getPointerFromConstMask LP64 0x100) = 0x100.
Proof.
  refine (proj1 (proj2 (proj2 (proj2 (proj2
            (@const_mask_pointer_encoding LP64 0x7fff5000 0x100 _ _ _)))))).
  - vm_compute. congruence.
  - vm_compute. split; congruence.
  - vm_compute. split; congruence.
Defined.

(** The partition needs no assumption on the width of a pointer. *)
Lemma mask_pointer_partition `{Platform} (p : Z) :
  Span8.isVariantMaskPointer p = negb (Span8.isConstMaskPointer p).
Proof.
  unfold Span8.isConstMaskPointer, Span8.isVariantMaskPointer.
  rewrite Z.gtb_ltb.
  destruct (Z.leb_spec (to_sysuint p) (to_sysuint 256)),
           (Z.ltb_spec (to_sysuint 256) (to_sysuint p)); simpl; (reflexivity || lia).
Qed.

(** ** Span8 and Span16: mask advance *)

Lemma int_mul_exact (a b : Z) : is_int (a * b) -> int_mul a b = a * b.
Proof. intros H. unfold int_mul. apply to_int_small. exact H. Qed.

Lemma int_mul_0_r (a : Z) : int_mul a 0 = 0.
Proof. unfold int_mul. rewrite Z.mul_0_r. reflexivity. Qed.

Lemma span_type_cases (type : Z) :
  0 <= type < SPAN_COUNT ->
  type = SPAN_C \/ type = SPAN_A8_GLYPH \/ type = SPAN_AX_GLYPH \/
  type = SPAN_AX_EXTRA \/ type = SPAN_ARGB32_GLYPH \/ type = SPAN_ARGBXX_GLYPH.
Proof.
  unfold SPAN_COUNT, SPAN_C, SPAN_A8_GLYPH, SPAN_AX_GLYPH, SPAN_AX_EXTRA,
         SPAN_ARGB32_GLYPH, SPAN_ARGBXX_GLYPH.
  lia.
Qed.

(** C1, as stated, fails where the [int] product wraps: the entry of
    [SPAN_ARGBXX_GLYPH] in the table of [Span16] is 8, and at the width
    300000000 [getMaskAdvance] returns -1894967296, not 2400000000.  No
    constant makes the advance of that type [w] times the constant at every
    [int] width. *)
Lemma getMaskAdvance_linear_counterexample :
  is_int 300000000 /\
  Span16.advanceData !! Z.to_nat SPAN_ARGBXX_GLYPH = Some 8 /\
  Span16.getMaskAdvance SPAN_ARGBXX_GLYPH 300000000 = Some (-1894967296) /\
  ~ (exists k : Z,
       forall w, is_int w ->
                 Span16.getMaskAdvance SPAN_ARGBXX_GLYPH w = Some (w * k)).
Proof.
  split; [vm_compute; split; congruence|].
  split; [reflexivity|]. split; [reflexivity|].
  intros [k Hall].
  assert (is_int 1) as H1 by (vm_compute; split; congruence).
  assert (is_int 300000000) as Hbig by (vm_compute; split; congruence).
  pose proof (Hall 1 H1) as Hone.
  pose proof (Hall 300000000 Hbig) as Hwide.
  vm_compute in Hone. vm_compute in Hwide.
  injection Hone as Hk. injection Hwide as Hw.
  destruct k as [|k|k]; try discriminate Hk.
  injection Hk as <-. discriminate Hw.
Qed.

(** C1, amended.  For every span type there is one constant per family, the
    entry of [advanceData], such that [getMaskAdvance type w] is [w] times
    that constant for every width [w] for which the product fits an [int].
    The constant of [SPAN_C] is 0 in both families, so the advance of a
    constant span is 0 at any width; the constant of [SPAN_AX_EXTRA] is 2 in
    [Span8] and 4 in [Span16]. *)
Theorem getMaskAdvance_linear (type : Z) :
  0 <= type < SPAN_COUNT ->
  exists k8 k16 : Z,
    Span8.advanceData !! Z.to_nat type = Some k8 /\
    Span16.advanceData !! Z.to_nat type = Some k16 /\
    (forall w, is_int (w * k8) -> Span8.getMaskAdvance type w = Some (w * k8)) /\
    (forall w, is_int (w * k16) -> Span16.getMaskAdvance type w = Some (w * k16)) /\
    (type = SPAN_C ->
       k8 = 0 /\ k16 = 0 /\
       forall w, Span8.getMaskAdvance type w = Some 0 /\
                 Span16.getMaskAdvance type w = Some 0) /\
    (type = SPAN_AX_EXTRA -> k8 = 2 /\ k16 = 4).
Proof.
  intros Htype.
  assert (forall k8 k16 : Z,
            Span8.advanceData !! Z.to_nat type = Some k8 ->
            Span16.advanceData !! Z.to_nat type = Some k16 ->
            (forall w, is_int (w * k8) ->
                       Span8.getMaskAdvance type w = Some (w * k8)) /\
            (forall w, is_int (w * k16) ->
                       Span16.getMaskAdvance type w = Some (w * k16))) as Hlin.
  { intros k8 k16 H8 H16.
    unfold Span8.getMaskAdvance, Span16.getMaskAdvance. rewrite H8, H16.
    split; intros w Hfit; rewrite (int_mul_exact _ _ Hfit); reflexivity. }
  destruct (span_type_cases type Htype)
    as [-> | [-> | [-> | [-> | [-> | ->]]]]].
  - exists 0, 0. split; [reflexivity|]. split; [reflexivity|].
    destruct (Hlin 0 0 eq_refl eq_refl) as (E8 & E16).
    split; [exact E8|]. split; [exact E16|]. split; [|discriminate].
    intros _. split; [reflexivity|]. split; [reflexivity|].
    intros w. unfold Span8.getMaskAdvance, Span16.getMaskAdvance. simpl.
    rewrite int_mul_0_r. split; reflexivity.
  - exists 1, 1. split; [reflexivity|]. split; [reflexivity|].
    destruct (Hlin 1 1 eq_refl eq_refl) as (E8 & E16).
    split; [exact E8|]. split; [exact E16|]. split; discriminate.
  - exists 1, 2. split; [reflexivity|]. split; [reflexivity|].
    destruct (Hlin 1 2 eq_refl eq_refl) as (E8 & E16).
    split; [exact E8|]. split; [exact E16|]. split; discriminate.
  - exists 2, 4. split; [reflexivity|]. split; [reflexivity|].
    destruct (Hlin 2 4 eq_refl eq_refl) as (E8 & E16).
    split; [exact E8|]. split; [exact E16|]. split; [discriminate|].
    intros _. split; reflexivity.
  - exists 4, 4. split; [reflexivity|]. split; [reflexivity|].
    destruct (Hlin 4 4 eq_refl eq_refl) as (E8 & E16).
    split; [exact E8|]. split; [exact E16|]. split; discriminate.
  - exists 4, 8. split; [reflexivity|]. split; [reflexivity|].
    destruct (Hlin 4 8 eq_refl eq_refl) as (E8 & E16).
    split; [exact E8|]. split; [exact E16|]. split; discriminate.
Qed.

Lemma getMaskAdvance_linear_witness :
  Span8.getMaskAdvance SPAN_AX_EXTRA 10 = Some 20 /\
  Span16.getMaskAdvance SPAN_AX_EXTRA 10 = Some 40.
Proof.
  destruct (getMaskAdvance_linear SPAN_AX_EXTRA)
    as (k8 & k16 & _ & _ & E8 & E16 & _ & Hextra).
  - vm_compute. split; congruence.
  - destruct (Hextra eq_refl) as [-> ->].
    split; [apply (E8 10) | apply (E16 10)]; vm_compute; split; congruence.
Defined.

(** ** The dispatch table is fully populated *)

Section TableProperties.

Import RasterUtil.

Variable PIXEL_FORMAT_COUNT : nat.
Variable COMPOSITE_COUNT : nat.

Local Abbreviation populated' := (populated PIXEL_FORMAT_COUNT).
Local Abbreviation fully_populated' :=
  (fully_populated PIXEL_FORMAT_COUNT COMPOSITE_COUNT).

Lemma baseline_funcs_populated : populated' (baseline_funcs PIXEL_FORMAT_COUNT).
Proof.
  unfold populated, baseline_funcs. simpl.
  split; [eauto|]. split; [eauto|]. split; [eauto|].
  repeat split; intros src Hsrc; exists Portable;
    apply lookup_replicate_2; exact Hsrc.
Qed.

Lemma insert_bound_keeps_bound (fns : list FnPtr) (src : nat) (r : Routine) :
  (forall i, (i < PIXEL_FORMAT_COUNT)%nat -> exists r', fns !! i = Some (Some r')) ->
  forall i, (i < PIXEL_FORMAT_COUNT)%nat ->
            exists r', <[src := Some r]> fns !! i = Some (Some r').
Proof.
  intros Hall i Hi.
  destruct (decide (src = i)) as [-> | Hne].
  - destruct (Hall i Hi) as [r' Hr'].
    exists r. apply list_lookup_insert_eq.
    apply lookup_lt_Some in Hr'. exact Hr'.
  - rewrite list_lookup_insert_ne by exact Hne. apply Hall. exact Hi.
Qed.

Lemma set_slot_populated (slot : Slot) (r : Routine) (b : RasterFuncs) :
  populated' b -> populated' (set_slot slot (Some r) b).
Proof.
  intros (Hc & Hca & Hcc & Hv & Hva & Hvc).
  destruct slot; unfold populated; simpl;
    repeat match goal with |- _ /\ _ => split end;
    eauto using insert_bound_keeps_bound.
Qed.

Lemma zeroed_baseline_fully_populated :
  fully_populated' (install_baseline PIXEL_FORMAT_COUNT
                      (zeroed PIXEL_FORMAT_COUNT COMPOSITE_COUNT)).
Proof.
  unfold fully_populated, install_baseline, zeroed. simpl.
  split.
  - rewrite length_fmap, length_replicate. reflexivity.
  - intros op row Hrow.
    rewrite list_lookup_fmap in Hrow.
    destruct (replicate COMPOSITE_COUNT _ !! op) as [row0|] eqn:Hrow0;
      [|discriminate].
    apply lookup_replicate_1 in Hrow0 as [-> _].
    simpl in Hrow. injection Hrow as <-.
    split.
    + rewrite length_fmap, length_replicate. reflexivity.
    + intros fmt b Hb. rewrite list_lookup_fmap in Hb.
      destruct (replicate PIXEL_FORMAT_COUNT _ !! fmt); [|discriminate].
      simpl in Hb. injection Hb as <-.
      apply baseline_funcs_populated.
Qed.

Lemma apply_override_fully_populated (cpu : nat -> bool) (m : FunctionMap) (o : Override) :
  fully_populated' m -> fully_populated' (apply_override cpu m o).
Proof.
  intros Hm. unfold apply_override.
  destruct (cpu (ov_feature o)); [|exact Hm].
  destruct (raster m !! ov_op o) as [row|] eqn:Hrow; [|exact Hm].
  destruct (row !! ov_format o) as [b|] eqn:Hb; [|exact Hm].
  destruct Hm as [Hlen Hrows].
  destruct (Hrows _ _ Hrow) as [Hrowlen Hentries].
  split; simpl.
  - rewrite length_insert. exact Hlen.
  - intros op row' Hrow'.
    destruct (decide (ov_op o = op)) as [<- | Hne].
    + rewrite list_lookup_insert_eq in Hrow'
        by (apply lookup_lt_Some in Hrow; exact Hrow).
      injection Hrow' as <-.
      split; [rewrite length_insert; exact Hrowlen|].
      intros fmt b' Hb'.
      destruct (decide (ov_format o = fmt)) as [<- | Hnf].
      * rewrite list_lookup_insert_eq in Hb'
          by (apply lookup_lt_Some in Hb; exact Hb).
        injection Hb' as <-.
        apply set_slot_populated. exact (Hentries _ _ Hb).
      * rewrite list_lookup_insert_ne in Hb' by exact Hnf.
        exact (Hentries _ _ Hb').
    + rewrite list_lookup_insert_ne in Hrow' by exact Hne.
      exact (Hrows _ _ Hrow').
Qed.

Lemma foldl_override_fully_populated (cpu : nat -> bool) (probe : list Override) :
  forall m, fully_populated' m ->
            fully_populated' (foldl (apply_override cpu) m probe).
Proof.
  induction probe as [|o probe IH]; intros m Hm; simpl.
  - exact Hm.
  - apply IH, apply_override_fully_populated, Hm.
Qed.

Lemma init_fully_populated (cpu : nat -> bool) (probe : list Override) :
  fully_populated' (init PIXEL_FORMAT_COUNT COMPOSITE_COUNT cpu probe).
Proof.
  unfold init. apply foldl_override_fully_populated,
                 zeroed_baseline_fully_populated.
Qed.

Lemma getRasterOps_fully_populated (m : FunctionMap) (format op : Z) :
  fully_populated' m ->
  (0 <= format < Z.of_nat PIXEL_FORMAT_COUNT)%Z ->
  (0 <= op < Z.of_nat COMPOSITE_COUNT)%Z ->
  exists b, getRasterOps m format op = Some b /\ populated' b.
Proof.
  intros [Hlen Hrows] Hformat Hop. unfold getRasterOps.
  destruct (Z.leb_spec 0 format); [|lia].
  destruct (Z.leb_spec 0 op); [|lia]. simpl.
  destruct (lookup_lt_is_Some_2 (raster m) (Z.to_nat op)) as [row Hrow];
    [lia|].
  rewrite Hrow.
  destruct (Hrows _ _ Hrow) as [Hrowlen Hentries].
  destruct (lookup_lt_is_Some_2 row (Z.to_nat format)) as [b Hb]; [lia|].
  exists b. split; [exact Hb | exact (Hentries _ _ Hb)].
Qed.

End TableProperties.

(** C2.  After initialization (baseline, then any list of replacements by
    the capability probe, whatever the CPU supports), [getRasterOps] on a
    declared format and a declared operator returns a bundle, not the null
    pointer, and each of the six slots of the bundle is bound, the three
    variable-source slots for every source format. *)
Theorem getRasterOps_populated
        (PIXEL_FORMAT_COUNT COMPOSITE_COUNT : nat)
        (cpu : nat -> bool) (probe : list RasterUtil.Override) (format op : Z) :
  0 <= format < Z.of_nat PIXEL_FORMAT_COUNT ->
  0 <= op < Z.of_nat COMPOSITE_COUNT ->
  exists b,
    RasterUtil.getRasterOps
      (RasterUtil.init PIXEL_FORMAT_COUNT COMPOSITE_COUNT cpu probe) format op
    = Some b /\
    RasterUtil.populated PIXEL_FORMAT_COUNT b.
Proof.
  intros Hformat Hop.
  apply getRasterOps_fully_populated with (COMPOSITE_COUNT := COMPOSITE_COUNT);
    [apply init_fully_populated | exact Hformat | exact Hop].
Qed.

Lemma getRasterOps_populated_witness :
  exists b,
    RasterUtil.getRasterOps
      (RasterUtil.init 4 3 (fun feature => Nat.eqb feature 2)
         [RasterUtil.mkOverride 2 1 0 (RasterUtil.SlotVSpan 3);
          RasterUtil.mkOverride 7 1 0 RasterUtil.SlotCSpan])
      0 1
    = Some b /\
    RasterUtil.cspan b = Some RasterUtil.Portable /\
    RasterUtil.vspan b !! 3%nat = Some (Some (RasterUtil.Accelerated 2)).
Proof.
  destruct (getRasterOps_populated 4 3 (fun feature => Nat.eqb feature 2)
              [RasterUtil.mkOverride 2 1 0 (RasterUtil.SlotVSpan 3);
               RasterUtil.mkOverride 7 1 0 RasterUtil.SlotCSpan] 0 1)
    as (b & Hb & _).
  - vm_compute. split; congruence.
  - vm_compute. split; congruence.
  - exists b. split; [exact Hb|].
    vm_compute in Hb. injection Hb as <-. split; reflexivity.
Defined.

(** ** Life cycle of a pattern context *)

Section ContextLifeCycle.

Import RasterUtil.

Lemma created_life_cycle_inv (p : Payload) (heap : gset nat) :
  life_cycle_inv p (created p heap).
Proof.
  unfold life_cycle_inv, created. simpl.
  split; [reflexivity|]. split; [reflexivity|]. split; [reflexivity|].
  destruct (owned p); simpl; [|exact I].
  apply elem_of_union_l, elem_of_singleton. reflexivity.
Qed.

Lemma free_is_freed (r : option nat) (heap : gset nat) :
  is_freed r (free r heap).
Proof.
  destruct r as [a|]; simpl; [|exact I].
  intros Hin. apply elem_of_difference in Hin as [_ Hnot].
  apply Hnot, elem_of_singleton. reflexivity.
Qed.

(** A release that leaves references behind changes the count only. *)
Lemma release_shared (w : World) :
  (1 < refCount (ctx w))%nat ->
  release w =
    mkWorld (mkPatternContext (pred (refCount (ctx w)))
                              (initialized (ctx w)) (payload (ctx w)))
            (live w) (destroy_calls w).
Proof.
  intros Hcount. unfold release.
  destruct (Nat.eqb_spec (pred (refCount (ctx w))) 0) as [Hz|]; [lia|].
  reflexivity.
Qed.

(** The release of the last reference calls [destroy]. *)
Lemma release_last (w : World) :
  refCount (ctx w) = 1%nat ->
  release w =
    mkWorld (mkPatternContext 0 false (payload (ctx w)))
            (free (owned (payload (ctx w))) (live w))
            (S (destroy_calls w)).
Proof.
  intros Hcount. unfold release. rewrite Hcount. reflexivity.
Qed.

Lemma step_life_cycle_inv (p : Payload) (w w' : World) (op : Op) :
  life_cycle_inv p w -> step w op = Some w' -> life_cycle_inv p w'.
Proof.
  intros [Hp Hinv]. unfold step.
  destruct (Nat.eqb_spec (refCount (ctx w)) 0) as [|Hpos]; [discriminate|].
  destruct Hinv as (Hcalls & Hinit & Hlive).
  intros [= <-]. destruct op.
  - unfold life_cycle_inv, addRef. simpl. auto.
  - destruct (decide (refCount (ctx w) = 1%nat)) as [Hone | Hmore].
    + rewrite (release_last w Hone). unfold life_cycle_inv. simpl.
      rewrite Hcalls, Hp. auto using free_is_freed.
    + rewrite (release_shared w) by lia. unfold life_cycle_inv. simpl.
      destruct (Nat.eqb_spec (pred (refCount (ctx w))) 0); [lia|]. auto.
Qed.

Lemma run_life_cycle_inv (p : Payload) (ops : list Op) :
  forall w w', life_cycle_inv p w -> run w ops = Some w' -> life_cycle_inv p w'.
Proof.
  induction ops as [|op ops IH]; intros w w' Hinv; simpl.
  - intros [= <-]. exact Hinv.
  - destruct (step w op) as [w1|] eqn:Hstep; [|discriminate].
    apply IH. exact (step_life_cycle_inv p w w1 op Hinv Hstep).
Qed.

End ContextLifeCycle.

(** C8.  Take a context just created with payload [p] and let its holders
    take and drop references in any order, reaching [w].  While the count
    is positive [destroy] has not been called and the owned ramp table or
    texture is alive; when the count is zero [destroy] has been called
    exactly once and the resource is freed.  A further release from a count
    above 1 calls nothing and frees nothing; the release from count 1 is
    the one call of [destroy]. *)
Theorem destroy_once_at_zero
        (p : RasterUtil.Payload) (heap : gset nat)
        (ops : list RasterUtil.Op) (w : RasterUtil.World) :
  RasterUtil.run (RasterUtil.created p heap) ops = Some w ->
  let count := RasterUtil.refCount (RasterUtil.ctx w) in
  ((0 < count)%nat ->
     RasterUtil.destroy_calls w = 0%nat /\
     RasterUtil.is_live (RasterUtil.owned p) (RasterUtil.live w)) /\
  (count = 0%nat ->
     RasterUtil.destroy_calls w = 1%nat /\
     RasterUtil.is_freed (RasterUtil.owned p) (RasterUtil.live w)) /\
  ((1 < count)%nat ->
     RasterUtil.destroy_calls (RasterUtil.release w) = 0%nat /\
     RasterUtil.live (RasterUtil.release w) = RasterUtil.live w /\
     RasterUtil.is_live (RasterUtil.owned p) (RasterUtil.live (RasterUtil.release w))) /\
  (count = 1%nat ->
     RasterUtil.destroy_calls (RasterUtil.release w) = 1%nat /\
     RasterUtil.is_freed (RasterUtil.owned p) (RasterUtil.live (RasterUtil.release w))).
Proof.
  intros Hrun count.
  pose proof (run_life_cycle_inv p ops _ _
                (created_life_cycle_inv p heap) Hrun) as [Hp Hinv].
  fold count in Hinv.
  split; [|split; [|split]].
  - intros Hpos. destruct (Nat.eqb_spec count 0); [lia|]. tauto.
  - intros Hzero. destruct (Nat.eqb_spec count 0); [|lia]. tauto.
  - intros Hmore. destruct (Nat.eqb_spec count 0); [lia|].
    rewrite (release_shared w) by exact Hmore. simpl. tauto.
  - intros Hone. destruct (Nat.eqb_spec count 0); [lia|].
    rewrite (release_last w Hone). simpl.
    destruct Hinv as (-> & _ & _). rewrite Hp.
    split; [reflexivity | apply free_is_freed].
Qed.

Lemma destroy_once_at_zero_witness :
  exists w,
    RasterUtil.run (RasterUtil.created (RasterUtil.PLinearGradient 7) ∅)
      [RasterUtil.OpAddRef; RasterUtil.OpRelease; RasterUtil.OpRelease] = Some w /\
    RasterUtil.refCount (RasterUtil.ctx w) = 0%nat /\
    RasterUtil.destroy_calls w = 1%nat.
Proof.
  eexists. split; [reflexivity|]. split; [reflexivity|].
  refine (proj1 (proj1 (proj2 (destroy_once_at_zero
            (RasterUtil.PLinearGradient 7) ∅
            [RasterUtil.OpAddRef; RasterUtil.OpRelease; RasterUtil.OpRelease]
            _ _)) _)); reflexivity.
Defined.

(** * Further properties of the span structures *)

(** ** Arithmetic modulo the width of [int] *)

Lemma to_int_shift (z q : Z) : to_int (z + q * 2 ^ 32) = to_int z.
Proof.
  unfold to_int, wrap_signed.
  replace (z + q * 2 ^ 32 + 2 ^ (32 - 1)) with (z + 2 ^ (32 - 1) + q * 2 ^ 32) by lia.
  rewrite Z.mod_add by (rewrite two_pow_32; lia).
  reflexivity.
Qed.

Lemma to_int_offset (z : Z) : exists q, to_int z = z + q * 2 ^ 32.
Proof.
  exists (- ((z + 2 ^ 31) / 2 ^ 32)).
  unfold to_int, wrap_signed. change (2 ^ (32 - 1)) with (2 ^ 31).
  rewrite Z.mod_eq by (rewrite two_pow_32; lia). lia.
Qed.

Lemma to_int_add (a b : Z) : to_int (to_int a + to_int b) = to_int (a + b).
Proof.
  destruct (to_int_offset a) as [qa ->], (to_int_offset b) as [qb ->].
  replace (a + qa * 2 ^ 32 + (b + qb * 2 ^ 32))
    with (a + b + (qa + qb) * 2 ^ 32) by lia.
  apply to_int_shift.
Qed.

Lemma int_mul_add_l (w1 w2 k : Z) :
  int_mul (w1 + w2) k = to_int (int_mul w1 k + int_mul w2 k).
Proof.
  unfold int_mul. rewrite to_int_add. f_equal. lia.
Qed.

(** ** Type of a span *)

(** X1.  [setType] passes exactly for the types below [SPAN_COUNT]; when it
    passes, [getType] returns the type that was set and the position, the
    mask and the link of the span are untouched. *)
Theorem setType_getType_roundtrip (s : Span) (type : Z) :
  is_uint32 type ->
  (type < SPAN_COUNT ->
     exists s', setType type s = Pass s' /\
                getType s' = type /\
                _x0 s' = _x0 s /\ _x1 s' = _x1 s /\
                _mask_uint s' = _mask_uint s /\ _next s' = _next s) /\
  (SPAN_COUNT <= type -> setType type s = AssertFail).
Proof.
  intros Htype. unfold setType. rewrite assert_then. split.
  - intros Hlt. destruct (Z.ltb_spec type SPAN_COUNT); [|lia].
    eexists. split; [reflexivity|]. simpl.
    split; [|repeat split].
    unfold getType, to_bitfield. simpl. apply wrap_unsigned_small.
    unfold SPAN_COUNT in *. unfold_ints. lia.
  - intros Hge. destruct (Z.ltb_spec type SPAN_COUNT); [lia | reflexivity].
Qed.

Lemma setType_getType_roundtrip_witness :
  exists s', setType SPAN_ARGB32_GLYPH span_0_3 = Pass s' /\
             getType s' = SPAN_ARGB32_GLYPH.
Proof.
  destruct (setType_getType_roundtrip span_0_3 SPAN_ARGB32_GLYPH)
    as [Hok _]; [vm_compute; split; congruence|].
  destruct Hok as (s' & Hset & Hget & _); [reflexivity|].
  exists s'. split; assumption.
Defined.

(** X2.  For [int] coordinates and a type below [SPAN_COUNT],
    [setPositionAndType] does what [setPosition] followed by [setType]
    does: the same assertions decide, and the same span results. *)
Theorem setPositionAndType_composes (s : Span) (x0 x1 type : Z) :
  is_int x0 -> is_int x1 -> is_uint32 type -> type < SPAN_COUNT ->
  setPositionAndType x0 x1 type s
  = and_then (setPosition x0 x1 s) (setType type).
Proof.
  intros Hx0 Hx1 Htype Hlt.
  unfold setPositionAndType, setPosition, setType. rewrite !assert_then.
  destruct (Z.leb_spec 0 x0) as [Hp0|]; [|reflexivity].
  destruct (Z.leb_spec 0 x1) as [Hp1|]; [|reflexivity].
  destruct (Z.ltb_spec x0 x1) as [Hord|]; [|reflexivity].
  simpl. rewrite assert_then.
  destruct (Z.ltb_spec type SPAN_COUNT); [|lia].
  rewrite (nonneg_int_as_uint32 x0 Hx0 Hp0), (nonneg_int_as_uint32 x1 Hx1 Hp1).
  rewrite (to_uint32_small x1) by (unfold_ints; lia).
  reflexivity.
Qed.

Lemma setPositionAndType_composes_witness :
  setPositionAndType 2 9 SPAN_AX_EXTRA span_0_3
  = Pass (mkSpan 2 SPAN_AX_EXTRA 9 0x100 NULL).
Proof.
  rewrite (setPositionAndType_composes span_0_3 2 9 SPAN_AX_EXTRA).
  - reflexivity.
  - vm_compute. split; congruence.
  - vm_compute. split; congruence.
  - vm_compute. split; congruence.
  - reflexivity.
Defined.

(** X3.  [setPositionAndType] carries no assertion on the type: with a
    valid position it passes for every [uint] and stores the type modulo 8,
    the width of the member.  Types 6 and 7, which [setType] refuses, are
    stored as they are, and type 8 is stored as [SPAN_C]. *)
Theorem setPositionAndType_unchecked_type (s : Span) (x0 x1 type : Z) :
  is_int x0 -> is_int x1 -> is_uint32 type ->
  0 <= x0 -> x0 < x1 ->
  exists s',
    setPositionAndType x0 x1 type s = Pass s' /\
    getType s' = type mod 8 /\
    (SPAN_COUNT <= type < 8 -> getType s' = type /\ setType type s = AssertFail) /\
    (type = 8 -> isConst s' = true).
Proof.
  intros Hx0 Hx1 Htype Hp0 Hord.
  unfold setPositionAndType. rewrite !assert_then.
  destruct (Z.leb_spec 0 x0); [|lia].
  destruct (Z.leb_spec 0 x1); [|lia].
  destruct (Z.ltb_spec x0 x1); [|lia].
  eexists. split; [reflexivity|].
  unfold getType, isConst, to_bitfield, wrap_unsigned. simpl.
  change (2 ^ 3) with 8.
  split; [reflexivity|]. split.
  - intros Hrange. split; [apply Z.mod_small; unfold SPAN_COUNT in *; lia|].
    unfold setType. rewrite assert_then.
    destruct (Z.ltb_spec type SPAN_COUNT); [lia | reflexivity].
  - intros ->. reflexivity.
Qed.

Lemma setPositionAndType_unchecked_type_witness :
  exists s', setPositionAndType 0 4 7 span_0_3 = Pass s' /\ getType s' = 7.
Proof.
  destruct (setPositionAndType_unchecked_type span_0_3 0 4 7)
    as (s' & Hset & _ & H67 & _).
  - vm_compute. split; congruence.
  - vm_compute. split; congruence.
  - vm_compute. split; congruence.
  - lia.
  - lia.
  - exists s'. split; [exact Hset|]. apply H67. vm_compute. split; congruence.
Defined.

(** ** Mask advance: bounds of the table and splitting a run *)

Lemma small_index_cases (type : Z) :
  0 <= type < 7 ->
  type = 0 \/ type = 1 \/ type = 2 \/ type = 3 \/ type = 4 \/ type = 5 \/ type = 6.
Proof. lia. Qed.

(** X4.  The [advanceData] tables have seven entries: [getMaskAdvance] is
    a read inside the table exactly for the types 0 to 6, the entry after
    the last kind ([SPAN_COUNT]) giving 0 at any width, and a read past the
    end from 7 on.  Type 7 is a value the 3-bit type member can hold. *)
Theorem getMaskAdvance_table_bounds (type w : Z) :
  0 <= type ->
  (Span8.getMaskAdvance type w = None <-> 7 <= type) /\
  (Span16.getMaskAdvance type w = None <-> 7 <= type) /\
  (type = SPAN_COUNT ->
     Span8.getMaskAdvance type w = Some 0 /\
     Span16.getMaskAdvance type w = Some 0).
Proof.
  intros Hpos.
  destruct (Z.lt_ge_cases type 7) as [Hin | Hout].
  - destruct (small_index_cases type (conj Hpos Hin))
      as [-> | [-> | [-> | [-> | [-> | [-> | ->]]]]]];
      (split; [split; [discriminate | lia]|]);
      (split; [split; [discriminate | lia]|]);
      intros Heq; try discriminate Heq;
      unfold Span8.getMaskAdvance, Span16.getMaskAdvance; simpl;
      rewrite int_mul_0_r; split; reflexivity.
  - assert (Span8.advanceData !! Z.to_nat type = None) as H8
      by (apply lookup_ge_None; simpl; lia).
    assert (Span16.advanceData !! Z.to_nat type = None) as H16
      by (apply lookup_ge_None; simpl; lia).
    unfold Span8.getMaskAdvance, Span16.getMaskAdvance. rewrite H8, H16.
    split; [tauto|]. split; [tauto|].
    unfold SPAN_COUNT. lia.
Qed.

Lemma getMaskAdvance_table_bounds_witness :
  Span8.getMaskAdvance 7 16 = None /\ Span16.getMaskAdvance 7 16 = None.
Proof.
  destruct (getMaskAdvance_table_bounds 7 16) as (H8 & H16 & _); [lia|].
  split; [apply H8 | apply H16]; lia.
Defined.

(** X5.  The advance of a run that is split in two is the sum of the
    advances of the parts, in both families, whenever that sum fits an
    [int]. *)
Theorem getMaskAdvance_additive (type w1 w2 a b : Z) :
  is_int (a + b) ->
  (Span8.getMaskAdvance type w1 = Some a ->
   Span8.getMaskAdvance type w2 = Some b ->
   Span8.getMaskAdvance type (w1 + w2) = Some (a + b)) /\
  (Span16.getMaskAdvance type w1 = Some a ->
   Span16.getMaskAdvance type w2 = Some b ->
   Span16.getMaskAdvance type (w1 + w2) = Some (a + b)).
Proof.
  intros Hfit.
  unfold Span8.getMaskAdvance, Span16.getMaskAdvance.
  split.
  - destruct (Span8.advanceData !! Z.to_nat type) as [k|]; [|discriminate].
    intros [= <-] [= <-].
    rewrite int_mul_add_l, (to_int_small _ Hfit). reflexivity.
  - destruct (Span16.advanceData !! Z.to_nat type) as [k|]; [|discriminate].
    intros [= <-] [= <-].
    rewrite int_mul_add_l, (to_int_small _ Hfit). reflexivity.
Qed.

Lemma getMaskAdvance_additive_witness :
  Span16.getMaskAdvance SPAN_ARGBXX_GLYPH (5 + 7) = Some (40 + 56).
Proof.
  refine (proj2 (getMaskAdvance_additive SPAN_ARGBXX_GLYPH 5 7 40 56 _) _ _).
  - vm_compute. split; congruence.
  - reflexivity.
  - reflexivity.
Defined.

(** ** Kinds and typed accessors *)

(** X6.  For every enumerated type exactly one of [isConst], [isA8Glyph],
    [isAXGlyph], [isAXExtra], [isArgb32Glyph] and [isArgbXXGlyph] is true.
    A type from [SPAN_COUNT] on counts as variant for [isVariant] although
    none of the five kind tests recognises it. *)
Theorem kind_predicates_partition (s : Span) :
  (0 <= getType s < SPAN_COUNT ->
     passing [isConst s; isA8Glyph s; isAXGlyph s; isAXExtra s;
              isArgb32Glyph s; isArgbXXGlyph s] = 1%nat) /\
  (SPAN_COUNT <= getType s ->
     isVariant s = true /\
     passing [isConst s; isA8Glyph s; isAXGlyph s; isAXExtra s;
              isArgb32Glyph s; isArgbXXGlyph s] = 0%nat).
Proof.
  unfold isConst, isVariant, isA8Glyph, isAXGlyph, isAXExtra,
         isArgb32Glyph, isArgbXXGlyph, getType.
  split.
  - intros Htype.
    destruct (span_type_cases _ Htype)
      as [-> | [-> | [-> | [-> | [-> | ->]]]]]; reflexivity.
  - unfold SPAN_COUNT, SPAN_V_BEGIN, SPAN_A8_GLYPH, SPAN_AX_GLYPH,
           SPAN_AX_EXTRA, SPAN_ARGB32_GLYPH, SPAN_ARGBXX_GLYPH.
    intros Hout.
    destruct (Z.leb_spec 1 (_type s)); [|lia].
    destruct (Z.ltb_spec (_type s) 1); [lia|].
    repeat match goal with
           | |- context [?a =? ?b] => destruct (Z.eqb_spec a b); [lia|]
           end.
    split; reflexivity.
Qed.

Lemma kind_predicates_partition_witness :
  passing [isConst (mkSpan 0 SPAN_AX_GLYPH 8 4096 NULL);
           isA8Glyph (mkSpan 0 SPAN_AX_GLYPH 8 4096 NULL);
           isAXGlyph (mkSpan 0 SPAN_AX_GLYPH 8 4096 NULL);
           isAXExtra (mkSpan 0 SPAN_AX_GLYPH 8 4096 NULL);
           isArgb32Glyph (mkSpan 0 SPAN_AX_GLYPH 8 4096 NULL);
           isArgbXXGlyph (mkSpan 0 SPAN_AX_GLYPH 8 4096 NULL)] = 1%nat.
Proof.
  refine (proj1 (kind_predicates_partition (mkSpan 0 SPAN_AX_GLYPH 8 4096 NULL)) _).
  vm_compute. split; congruence.
Defined.

Ltac unfold_span_kinds :=
  unfold SPAN_COUNT, SPAN_V_BEGIN, SPAN_C, SPAN_A8_GLYPH, SPAN_AX_GLYPH,
         SPAN_AX_EXTRA, SPAN_ARGB32_GLYPH, SPAN_ARGBXX_GLYPH in *.

Ltac decide_eqbs :=
  repeat match goal with
         | |- context [?a =? ?b] => destruct (Z.eqb_spec a b)
         | |- context [?a <=? ?b] => destruct (Z.leb_spec a b)
         | |- context [?a <? ?b] => destruct (Z.ltb_spec a b)
         end.

(** X7.  On a span of an enumerated variant kind exactly one of the three
    typed mask getters of [Span8] passes; a typed getter that passes returns
    the pointer [getVariantMask] returns; on a constant span all three stop
    at their assertion. *)
Theorem Span8_typed_getters (s : Span) :
  (SPAN_V_BEGIN <= getType s < SPAN_COUNT ->
     passing [passes (Span8.getA8Glyph s); passes (Span8.getA8Extra s);
              passes (Span8.getARGB32Glyph s)] = 1%nat) /\
  (forall p,
     Span8.getA8Glyph s = Pass p \/ Span8.getA8Extra s = Pass p \/
     Span8.getARGB32Glyph s = Pass p ->
     getVariantMask s = Pass p /\ p = getGenericMask s) /\
  (isConst s = true ->
     Span8.getA8Glyph s = AssertFail /\ Span8.getA8Extra s = AssertFail /\
     Span8.getARGB32Glyph s = AssertFail).
Proof.
  unfold Span8.getA8Glyph, Span8.getA8Extra, Span8.getARGB32Glyph,
         getVariantMask, getGenericMask, isVariant, isConst, getType.
  rewrite !assert_then. unfold_span_kinds.
  split; [|split].
  - intros Hkind. decide_eqbs; simpl; (reflexivity || lia).
  - intros p. decide_eqbs; simpl;
      intros [Hres | [Hres | Hres]]; try discriminate Hres; try lia;
      injection Hres as <-; split; reflexivity.
  - decide_eqbs; simpl; intros Hconst; try discriminate Hconst; try lia;
      repeat split.
Qed.

Lemma Span8_typed_getters_witness :
  Span8.getA8Glyph (mkSpan 0 SPAN_C 8 0x80 NULL) = AssertFail /\
  passing [passes (Span8.getA8Glyph (mkSpan 0 SPAN_AX_GLYPH 8 4096 NULL));
           passes (Span8.getA8Extra (mkSpan 0 SPAN_AX_GLYPH 8 4096 NULL));
           passes (Span8.getARGB32Glyph (mkSpan 0 SPAN_AX_GLYPH 8 4096 NULL))]
  = 1%nat.
Proof.
  split.
  - refine (proj1 (proj2 (proj2
              (Span8_typed_getters (mkSpan 0 SPAN_C 8 0x80 NULL))) _)).
    reflexivity.
  - refine (proj1 (Span8_typed_getters (mkSpan 0 SPAN_AX_GLYPH 8 4096 NULL)) _).
    vm_compute. split; congruence.
Defined.

(** X8.  On a span of an enumerated variant kind exactly one of the five
    typed mask getters of [Span16] passes, the one of its own kind; a typed
    getter that passes returns the pointer [getVariantMask] returns.
    Unlike [Span8], whose [getA8Glyph] also serves [SPAN_AX_GLYPH] and whose
    [getARGB32Glyph] also serves [SPAN_ARGBXX_GLYPH], the getters of
    [Span16] for the fixed-depth kinds refuse the extended kinds. *)
Theorem Span16_typed_getters (s : Span) :
  (SPAN_V_BEGIN <= getType s < SPAN_COUNT ->
     passing [passes (Span16.getA8Glyph s); passes (Span16.getA16Glyph s);
              passes (Span16.getA16Extra s); passes (Span16.getARGB32Glyph s);
              passes (Span16.getARGB64Glyph s)] = 1%nat) /\
  (forall p,
     Span16.getA8Glyph s = Pass p \/ Span16.getA16Glyph s = Pass p \/
     Span16.getA16Extra s = Pass p \/ Span16.getARGB32Glyph s = Pass p \/
     Span16.getARGB64Glyph s = Pass p ->
     getVariantMask s = Pass p /\ p = getGenericMask s) /\
  (getType s = SPAN_AX_GLYPH ->
     passes (Span8.getA8Glyph s) = true /\ Span16.getA8Glyph s = AssertFail) /\
  (getType s = SPAN_ARGBXX_GLYPH ->
     passes (Span8.getARGB32Glyph s) = true /\
     Span16.getARGB32Glyph s = AssertFail).
Proof.
  unfold Span16.getA8Glyph, Span16.getA16Glyph, Span16.getA16Extra,
         Span16.getARGB32Glyph, Span16.getARGB64Glyph,
         Span8.getA8Glyph, Span8.getARGB32Glyph,
         getVariantMask, getGenericMask, isVariant, getType.
  rewrite !assert_then. unfold_span_kinds.
  split; [|split; [|split]].
  - intros Hkind. decide_eqbs; simpl; (reflexivity || lia).
  - intros p. decide_eqbs; simpl;
      intros [Hres | [Hres | [Hres | [Hres | Hres]]]];
      try discriminate Hres; try lia;
      injection Hres as <-; split; reflexivity.
  - intros ->. split; reflexivity.
  - intros ->. split; reflexivity.
Qed.

Lemma Span16_typed_getters_witness :
  passes (Span8.getA8Glyph (mkSpan 0 SPAN_AX_GLYPH 8 4096 NULL)) = true /\
  Span16.getA8Glyph (mkSpan 0 SPAN_AX_GLYPH 8 4096 NULL) = AssertFail.
Proof.
  refine (proj1 (proj2 (proj2
            (Span16_typed_getters (mkSpan 0 SPAN_AX_GLYPH 8 4096 NULL)))) _).
  reflexivity.
Defined.

(** ** Constant masks: accessors and pointer helpers together *)

(** X9.  On a constant span, in both families, the mask stored by
    [setConstMask] is the mask [getConstMask] returns, for every 32-bit
    mask value, and storing it leaves the position and the type alone. *)
Theorem setConstMask_getConstMask_roundtrip `{Platform} (s : Span) (m : Z) :
  32 <= sysuint_bits -> is_uint32 m -> isConst s = true ->
  exists s',
    Span8.setConstMask m s = Pass s' /\
    Span16.setConstMask m s = Pass s' /\
    Span8.getConstMask s' = Pass m /\
    Span16.getConstMask s' = Pass m /\
    getX0 s' = getX0 s /\ getX1 s' = getX1 s /\ getType s' = getType s.
Proof.
  intros Hbits Hm Hconst.
  exists (with_mask (to_sysuint m) s).
  unfold Span8.setConstMask, Span16.setConstMask,
         Span8.getConstMask, Span16.getConstMask.
  rewrite !assert_then.
  change (isConst (with_mask (to_sysuint m) s)) with (isConst s).
  rewrite Hconst. simpl.
  rewrite (to_sysuint_small m Hbits Hm), (to_uint32_small m Hm).
  repeat split.
Qed.

Lemma setConstMask_getConstMask_roundtrip_witness :
  exists s',
    @Span16.setConstMask LP64 0xC000 span_0_3 = Pass s' /\
    Span16.getConstMask s' = Pass 0xC000.
Proof.
  destruct (@setConstMask_getConstMask_roundtrip LP64 span_0_3 0xC000)
    as (s' & _ & Hset & _ & Hget & _).
  - vm_compute. congruence.
  - vm_compute. split; congruence.
  - reflexivity.
  - exists s'. split; assumption.
Defined.

(** X10.  [isValid] reads the constant mask as a pointer: a constant span
    whose mask has been set to 0 is not valid whatever its position, and
    with any other mask value it is valid exactly when [x0 < x1]. *)
Theorem zero_const_mask_not_valid `{Platform} (s s' : Span) (m : Z) :
  32 <= sysuint_bits -> is_uint32 m ->
  Span8.setConstMask m s = Pass s' \/ Span16.setConstMask m s = Pass s' ->
  isValid s' = (_x0 s <? _x1 s) && negb (m =? 0) /\
  (m = 0 -> isValid s' = false).
Proof.
  intros Hbits Hm.
  unfold Span8.setConstMask, Span16.setConstMask. rewrite !assert_then.
  destruct (isConst s); [|intros [|]; discriminate].
  assert (isValid (with_mask (to_sysuint m) s)
          = (_x0 s <? _x1 s) && negb (m =? 0)) as Hvalid.
  { unfold isValid. simpl. rewrite (to_sysuint_small m Hbits Hm). reflexivity. }
  intros [[= <-] | [= <-]]; (split; [exact Hvalid|]);
    intros ->; rewrite Hvalid; apply andb_false_r.
Qed.

Lemma zero_const_mask_not_valid_witness :
  exists s', @Span8.setConstMask LP64 0 span_0_3 = Pass s' /\ isValid s' = false.
Proof.
  eexists. split; [reflexivity|].
  refine (proj2 (@zero_const_mask_not_valid LP64 span_0_3 _ 0 _ _ _) _).
  - vm_compute. congruence.
  - vm_compute. split; congruence.
  - left. reflexivity.
  - reflexivity.
Defined.

(** X11.  The span accessors and the static pointer helpers of [Span8]
    agree: on a constant span [getConstMask] is [getConstMaskFromPointer]
    of the generic mask pointer, and [setConstMask m] stores the pointer
    [getPointerFromConstMask m], which [isConstMaskPointer] accepts when
    [m <= 0x100]. *)
Theorem const_mask_accessors_agree `{Platform} (s : Span) (m : Z) :
  32 <= sysuint_bits -> Span_wf s -> is_uint32 m -> isConst s = true ->
  Span8.getConstMask s
  = Pass (Span8.getConstMaskFromPointer (getGenericMask s)) /\
  (exists s',
     Span8.setConstMask m s = Pass s' /\
     getGenericMask s' = Span8.getPointerFromConstMask m /\
     (m <= 0x100 -> Span8.isConstMaskPointer (getGenericMask s') = true)).
Proof.
  intros Hbits (_ & _ & _ & Hmask) Hm Hconst.
  unfold Span8.getConstMask, Span8.setConstMask,
         Span8.getConstMaskFromPointer, Span8.getPointerFromConstMask,
         Span8.isConstMaskPointer, getGenericMask.
  rewrite !assert_then, Hconst. split.
  - rewrite (to_sysuint_id _ Hmask). reflexivity.
  - eexists. split; [reflexivity|]. simpl. split; [reflexivity|].
    intros Hle.
    rewrite (to_sysuint_small m Hbits Hm).
    rewrite (to_sysuint_small 256) by (exact Hbits || (unfold_ints; lia)).
    rewrite (to_sysuint_small m Hbits Hm).
    apply Z.leb_le. exact Hle.
Qed.

Lemma const_mask_accessors_agree_witness :
  Span8.getConstMask (mkSpan 0 SPAN_C 8 0x80 NULL)
  = Pass (@Span8.getConstMaskFromPointer LP64
            (getGenericMask (mkSpan 0 SPAN_C 8 0x80 NULL))).
Proof.
  refine (proj1 (@const_mask_accessors_agree LP64
                   (mkSpan 0 SPAN_C 8 0x80 NULL) 0x40 _ _ _ _)).
  - vm_compute. congruence.
  - vm_compute. repeat split; congruence.
  - vm_compute. split; congruence.
  - reflexivity.
Defined.

(** X12.  A constant mask value turned into a pointer is classified as
    constant exactly when it is at most [0x100] and as variant exactly when
    it is larger.  The opaque constant mask of [Span16], [0x10000], is
    therefore classified as a variant mask pointer by the helpers of
    [Span8]. *)
Theorem const_mask_pointer_threshold `{Platform} (s : Span) (m : Z) :
  32 <= sysuint_bits -> is_uint32 m ->
  (Span8.isConstMaskPointer (Span8.getPointerFromConstMask m) = true
   <-> m <= 0x100) /\
  (Span8.isVariantMaskPointer (Span8.getPointerFromConstMask m) = true
   <-> 0x100 < m) /\
  (Span16.isConstMaskOpaque s = Pass true ->
   Span8.isVariantMaskPointer (getGenericMask s) = true).
Proof.
  intros Hbits Hm.
  assert (to_sysuint 256 = 256) as H100
    by (apply to_sysuint_small; [exact Hbits | unfold_ints; lia]).
  assert (to_sysuint 65536 = 65536) as H10000
    by (apply to_sysuint_small; [exact Hbits | unfold_ints; lia]).
  unfold Span8.isConstMaskPointer, Span8.isVariantMaskPointer,
         Span8.getPointerFromConstMask, Span16.isConstMaskOpaque,
         getGenericMask.
  rewrite !(to_sysuint_small m Hbits Hm), !H100, Z.gtb_ltb.
  split; [apply Z.leb_le|]. split; [apply Z.ltb_lt|].
  rewrite assert_then. destruct (isConst s); [|discriminate].
  intros [= Heq]. apply Z.eqb_eq in Heq.
  rewrite Heq, H10000, Z.gtb_ltb. reflexivity.
Qed.

Lemma const_mask_pointer_threshold_witness :
  @Span8.isVariantMaskPointer LP64
    (getGenericMask (mkSpan 0 SPAN_C 8 0x10000 NULL)) = true.
Proof.
  refine (proj2 (proj2 (@const_mask_pointer_threshold LP64
                          (mkSpan 0 SPAN_C 8 0x10000 NULL) 0x101 _ _)) _).
  - vm_compute. congruence.
  - vm_compute. split; congruence.
  - reflexivity.
Defined.

(** ** Position: what the setters store and how they compose *)

(** X13.  [setPosition] with [int] coordinates [0 <= x0 < x1] passes;
    afterwards [getX1] is [x1], [getX0] is [x0] modulo [2^29], and
    [getLength] is their difference, which is at least [x1 - x0] and equal
    to it when [x0 < 2^29].  The span is then valid exactly when its mask
    is not null. *)
Theorem setPosition_roundtrip (s : Span) (x0 x1 : Z) :
  is_int x0 -> is_int x1 -> 0 <= x0 -> x0 < x1 ->
  exists s',
    setPosition x0 x1 s = Pass s' /\
    getX1 s' = x1 /\
    getX0 s' = x0 mod 2 ^ 29 /\
    getLength s' = x1 - x0 mod 2 ^ 29 /\
    x1 - x0 <= getLength s' /\
    (x0 < 2 ^ 29 -> getX0 s' = x0 /\ getLength s' = x1 - x0) /\
    isValid s' = negb (_mask_uint s =? NULL).
Proof.
  intros Hx0 Hx1 Hp0 Hord.
  unfold setPosition. rewrite !assert_then.
  destruct (Z.leb_spec 0 x0); [|lia].
  destruct (Z.leb_spec 0 x1); [|lia].
  destruct (Z.ltb_spec x0 x1); [|lia].
  eexists. split; [reflexivity|].
  unfold getX0, getX1, getLength, isValid, to_bitfield, wrap_unsigned. simpl.
  pose proof (Z.mod_pos_bound x0 (2 ^ 29) ltac:(lia)) as Hmod.
  pose proof (Z.mod_le x0 (2 ^ 29) Hp0 ltac:(lia)) as Hle.
  assert (is_uint32 x1) as Hu1 by (unfold_ints; lia).
  rewrite (to_uint32_small x1 Hu1).
  rewrite (to_uint32_small (x1 - x0 mod 2 ^ 29)) by (unfold_ints; lia).
  rewrite !to_int_small by (unfold_ints; lia).
  split; [reflexivity|]. split; [reflexivity|]. split; [reflexivity|].
  split; [lia|]. split.
  - intros Hsmall. rewrite Z.mod_small by lia. split; reflexivity.
  - destruct (Z.ltb_spec (x0 mod 2 ^ 29) x1); [reflexivity | lia].
Qed.

Lemma setPosition_roundtrip_witness :
  exists s', setPosition 4 10 span_0_3 = Pass s' /\ getLength s' = 6.
Proof.
  destruct (setPosition_roundtrip span_0_3 4 10)
    as (s' & Hset & _ & _ & _ & _ & Hsmall & _).
  - vm_compute. split; congruence.
  - vm_compute. split; congruence.
  - lia.
  - lia.
  - exists s'. split; [exact Hset|].
    destruct Hsmall as [_ ->]; [vm_compute; congruence | reflexivity].
Defined.

(** X14.  For every span whose end coordinate is at most [INT_MAX], valid
    or not, [getLength] is [getX1 - getX0]; a span that ends at or before
    its start has a length that is zero or negative. *)
Theorem getLength_is_difference `{Platform} (s : Span) :
  Span_wf s -> _x1 s <= INT_MAX ->
  getLength s = getX1 s - getX0 s /\
  (getLength s <= 0 <-> getX1 s <= getX0 s).
Proof.
  intros (H0 & _ & H1 & _) Hmax.
  unfold getLength, getX0, getX1.
  rewrite (to_int_small (_x0 s)) by (unfold_ints; lia).
  rewrite (to_int_small (_x1 s)) by (unfold_ints; lia).
  assert (to_int (to_uint32 (_x1 s - _x0 s)) = _x1 s - _x0 s) as ->.
  { destruct (Z.le_gt_cases (_x0 s) (_x1 s)) as [Hle | Hgt].
    - rewrite to_uint32_small by (unfold_ints; lia).
      apply to_int_small. unfold_ints. lia.
    - assert (to_uint32 (_x1 s - _x0 s) = _x1 s - _x0 s + 1 * 2 ^ 32) as ->.
      { unfold to_uint32, wrap_unsigned.
        rewrite <- (Z.mod_add _ 1) by (rewrite two_pow_32; lia).
        apply Z.mod_small. unfold_ints. lia. }
      rewrite to_int_shift.
      apply to_int_small. unfold_ints. lia. }
  split; [reflexivity | lia].
Qed.

Lemma getLength_is_difference_witness :
  getLength (mkSpan 5 SPAN_C 3 0x100 NULL) = -2.
Proof.
  destruct (@getLength_is_difference LP64 (mkSpan 5 SPAN_C 3 0x100 NULL))
    as [Hlen _].
  - vm_compute. repeat split; congruence.
  - vm_compute. congruence.
  - rewrite Hlen. reflexivity.
Defined.

(** X15.  [setX0] and [setX1] commute, and for [int] coordinates
    [0 <= x0 < x1] doing one after the other gives the span [setPosition]
    gives. *)
Theorem setX0_setX1_compose (s : Span) (x0 x1 : Z) :
  is_int x0 -> is_int x1 ->
  and_then (setX0 x0 s) (setX1 x1) = and_then (setX1 x1 s) (setX0 x0) /\
  (0 <= x0 -> x0 < x1 ->
   and_then (setX0 x0 s) (setX1 x1) = setPosition x0 x1 s).
Proof.
  intros Hx0 Hx1.
  unfold setX0, setX1, setPosition. rewrite !assert_then.
  split.
  - destruct (0 <=? x0) eqn:E0, (0 <=? x1) eqn:E1; simpl;
      rewrite ?assert_then, ?E0, ?E1; reflexivity.
  - intros Hp0 Hord.
    destruct (Z.leb_spec 0 x0); [|lia]. simpl. rewrite assert_then.
    destruct (Z.leb_spec 0 x1); [|lia].
    destruct (Z.ltb_spec x0 x1); [|lia].
    rewrite (nonneg_int_as_uint32 x0 Hx0 Hp0).
    rewrite (nonneg_int_as_uint32 x1 Hx1) by lia.
    rewrite (to_uint32_small x1) by (unfold_ints; lia).
    reflexivity.
Qed.

Lemma setX0_setX1_compose_witness :
  and_then (setX0 4 span_0_3) (setX1 10) = setPosition 4 10 span_0_3.
Proof.
  refine (proj2 (setX0_setX1_compose span_0_3 4 10 _ _) _ _).
  - vm_compute. split; congruence.
  - vm_compute. split; congruence.
  - lia.
  - lia.
Defined.
